(** * The Millionth Dollar Homepage: grid store, placement ledger, empty-space search

    A shallow embedding of the server's request handlers (the Express
    application: [POST /pixel], [POST /ad], [POST /generate-image],
    [GET /pixel/:x/:y], [GET /images/:id]) and of the agent's
    [findEmptySpace] tool, followed by the properties of the design
    document that concern them.

    Modelling conventions.
    - A request body is a JSON object; each field is a [json] value, so that the
      handlers' [typeof] tests and truthiness tests ([!v], [v || d]) are the
      ones of the source.
    - JSON numbers are the integers [Z]: grid coordinates and sizes are
      integral, and on integer-valued numbers the operations the handlers
      use ([+], [*], [<], [%], [Math.floor] of a quotient) are exact.
      Requests carrying a fractional number are outside the model.
    - Money is an exact rational [Q].  The source accumulates [0.0001] in a
      binary double; every amount it reports goes through [toFixed] (4 or 6
      decimals), which removes the rounding noise of the accumulation, so the
      amounts a client observes are the exact ones computed here.
    - A key of the [canvas] map is the string [`${x},${y}`]; it determines
      the pair [(x, y)] and is modelled by that pair.
    - Values the handlers take from their environment ([Date.now()], the
      generated identifiers, the reply of the image model, [Math.random()])
      are explicit arguments. *)

From Stdlib Require Import Ascii String QArith Qround Lqa.
From Stdlib Require DecimalString DecimalZ DecimalPos DecimalFacts.
From stdpp Require Import gmap strings list fin_maps.

Local Open Scope Z_scope.

(** ** JSON values *)

Inductive json : Type :=
  | JUndefined                (* field absent *)
  | JNull
  | JBool (b : bool)
  | JNum (n : Z)
  | JStr (s : string)
  | JObject.                  (* an array or object: typeof "object", truthy *)

#[global] Instance json_eq_dec : EqDecision json.
Proof. solve_decision. Defined.

(** [typeof v === "number"] and [typeof v === "string"]. *)
Definition is_number (v : json) : bool :=
  match v with JNum _ => true | _ => false end.

Definition is_string (v : json) : bool :=
  match v with JStr _ => true | _ => false end.

(** JavaScript truthiness: [undefined], [null], [false], [0] and the empty
    string are falsy. *)
Definition truthy (v : json) : bool :=
  match v with
  | JUndefined | JNull => false
  | JBool b => b
  | JNum n => negb (n =? 0)
  | JStr s => negb (String.eqb s "")
  | JObject => true
  end.

(** [v || d] *)
Definition js_or (v d : json) : json := if truthy v then v else d.

(** ** Canvas configuration *)

Definition CANVAS_WIDTH : Z := 1000.
Definition CANVAS_HEIGHT : Z := 1000.

(** The unit price, [$0.0001] per pixel. *)
Definition PIXEL_PRICE : Q := 1 # 10000.

(** ** Colours: the test [/^#[0-9A-Fa-f]{6}$/] and [toUpperCase] *)

Definition is_hex_digit (c : ascii) : bool :=
  let n := nat_of_ascii c in
  ((48 <=? n)%nat && (n <=? 57)%nat)        (* 0-9 *)
  || ((65 <=? n)%nat && (n <=? 70)%nat)     (* A-F *)
  || ((97 <=? n)%nat && (n <=? 102)%nat).   (* a-f *)

(** Exactly [k] hexadecimal digits, then the end of the string. *)
Fixpoint hex_digits (k : nat) (s : string) : bool :=
  match k, s with
  | O, EmptyString => true
  | S k', String c s' => is_hex_digit c && hex_digits k' s'
  | _, _ => false
  end.

Definition color_re_test (s : string) : bool :=
  match s with
  | String c rest => Ascii.eqb c "#"%char && hex_digits 6 rest
  | EmptyString => false
  end.

(** [toUpperCase] on the characters a colour can hold (it is only applied
    to strings that passed [color_re_test]). *)
Definition upper_ascii (c : ascii) : ascii :=
  let n := nat_of_ascii c in
  if ((97 <=? n)%nat && (n <=? 122)%nat)%bool then ascii_of_nat (n - 32) else c.

Fixpoint toUpperCase (s : string) : string :=
  match s with
  | EmptyString => EmptyString
  | String c s' => String (upper_ascii c) (toUpperCase s')
  end.

(** ** Data structures *)

Record PixelData : Type := mkPixelData {
  color : string;
  owner : json;              (* wallet address or agent identifier *)
  url : json;                (* set by POST /pixel *)
  adId : option string;      (* set by POST /ad *)
  timestamp : Z
}.

Record AdPlacement : Type := mkAdPlacement {
  ad_id : string;
  ad_owner : json;
  ad_x : Z;
  ad_y : Z;
  ad_width : Z;
  ad_height : Z;
  ad_pixels : Z;
  ad_totalCost : Q;          (* the amount printed by toFixed(4) *)
  ad_imageId : string;        (* reference to the generated image *)
  ad_imageUrl : string;      (* URL to serve the image *)
  ad_linkUrl : string;
  ad_title : string;
  ad_timestamp : Z
}.

Record GeneratedImage : Type := mkGeneratedImage {
  data : list Byte.byte;
  contentType : string
}.

(** The in-memory storage of the server. *)
Record Store : Type := mkStore {
  canvas : gmap (Z * Z) PixelData;
  adPlacements : list AdPlacement;
  generatedImages : gmap string GeneratedImage;
  totalRevenue : Q;
  totalPixelsSold : Z
}.

Definition empty_store : Store :=
  {| canvas := ∅; adPlacements := []; generatedImages := ∅;
     totalRevenue := 0%Q; totalPixelsSold := 0 |}.

(** ** Failures *)

(** One constructor per error reply of the handlers. *)
Inductive error : Type :=
  | XYNotNumbers             (* "x and y must be numbers" *)
  | CoordinatesOutside       (* "Coordinates must be within (0-999, 0-999)" *)
  | ColorNotHex              (* "Color must be a valid hex color" *)
  | DimsNotNumbers           (* "x, y, width, and height must be numbers" *)
  | MinimumAdSize            (* "Minimum ad size is 10x10 pixels" *)
  | NotMultiplesOfTen        (* "Ad dimensions must be multiples of 10" *)
  | MaximumAdSize            (* "Maximum ad size is 100x100 pixels" *)
  | OutsideCanvas            (* "Ad must fit within canvas bounds" *)
  | ImageIdRequired          (* "imageId is required (use /generate-image first)" *)
  | ImageNotFound            (* "Invalid imageId - image not found" *)
  | LinkUrlRequired          (* "linkUrl is required" *)
  | TitleRequired            (* "title is required (shown on hover)" *)
  | GenDimsNotNumbers        (* "width and height must be numbers" *)
  | GenMinimum               (* "Minimum dimensions are 10x10" *)
  | GenNotMultiplesOfTen     (* "Dimensions must be multiples of 10" *)
  | PromptRequired           (* "prompt is required" *)
  | GenerationFailed         (* status 500, "Image generation failed" *)
  | InvalidCoordinates       (* GET /pixel: "Invalid coordinates" *)
  | ImageMissing.            (* GET /images: status 404, "Image not found" *)

#[global] Instance error_eq_dec : EqDecision error.
Proof. solve_decision. Defined.

(** The failure kinds of the design document. *)
Inductive failure_kind : Type :=
  | InvalidInput | OutOfBounds | InvalidColor
  | TooSmall | TooLarge | Misaligned
  | UnknownImage | UpstreamFailure.

#[global] Instance failure_kind_eq_dec : EqDecision failure_kind.
Proof. solve_decision. Defined.

Definition kind_of (e : error) : failure_kind :=
  match e with
  | XYNotNumbers | DimsNotNumbers | GenDimsNotNumbers => InvalidInput
  | LinkUrlRequired | TitleRequired | PromptRequired => InvalidInput
  | CoordinatesOutside | OutsideCanvas | InvalidCoordinates => OutOfBounds
  | ColorNotHex => InvalidColor
  | MinimumAdSize | GenMinimum => TooSmall
  | MaximumAdSize => TooLarge
  | NotMultiplesOfTen | GenNotMultiplesOfTen => Misaligned
  | ImageIdRequired | ImageNotFound | ImageMissing => UnknownImage
  | GenerationFailed => UpstreamFailure
  end.

Inductive result (A : Type) : Type :=
  | Ok (a : A)
  | Err (e : error).
Arguments Ok {A} a.
Arguments Err {A} e.

Definition is_ok {A} (r : result A) : bool :=
  match r with Ok _ => true | Err _ => false end.

(** ** POST /pixel *)

Record PixelBody : Type := mkPixelBody {
  pb_x : json; pb_y : json; pb_color : json; pb_owner : json; pb_url : json
}.

Record PixelReply : Type := mkPixelReply {
  pr_x : Z; pr_y : Z;
  pr_color : string;
  pr_owner : json;
  pr_url : json;
  pr_cost : Q;
  pr_totalPixelsSold : Z
}.

(** [now] is the value of [Date.now()]. *)
Definition post_pixel (now : Z) (body : PixelBody) (st : Store)
  : result PixelReply * Store :=
  match pb_x body, pb_y body with
  | JNum x, JNum y =>
    if (x <? 0) || (x >=? CANVAS_WIDTH) || (y <? 0) || (y >=? CANVAS_HEIGHT)
    then (Err CoordinatesOutside, st)
    else
      match pb_color body with
      | JStr c =>
        if negb (color_re_test c) then (Err ColorNotHex, st)
        else
          let key := (x, y) in
          let wasEmpty := negb (bool_decide (is_Some (canvas st !! key))) in
          let canvas1 :=
            <[key := {| color := toUpperCase c;
                        owner := js_or (pb_owner body) (JStr "anonymous");
                        url := pb_url body;
                        adId := None;
                        timestamp := now |}]> (canvas st) in
          let sold1 := if wasEmpty then totalPixelsSold st + 1
                       else totalPixelsSold st in
          let revenue1 := if wasEmpty then (totalRevenue st + PIXEL_PRICE)%Q
                          else totalRevenue st in
          (Ok {| pr_x := x; pr_y := y;
                 pr_color := toUpperCase c;
                 pr_owner := js_or (pb_owner body) (JStr "anonymous");
                 pr_url := pb_url body;
                 pr_cost := PIXEL_PRICE;
                 pr_totalPixelsSold := sold1 |},
           {| canvas := canvas1;
              adPlacements := adPlacements st;
              generatedImages := generatedImages st;
              totalRevenue := revenue1;
              totalPixelsSold := sold1 |})
      | _ => (Err ColorNotHex, st)
      end
  | _, _ => (Err XYNotNumbers, st)
  end.

(** ** GET /pixel/:x/:y *)

Inductive PixelQuery : Type :=
  | QAvailable (x y : Z) (price : Q)
  | QTaken (x y : Z) (p : PixelData).

(** The arguments are the results of [parseInt] on the two path
    parameters; [None] stands for [NaN]. *)
Definition get_pixel (px py : option Z) (st : Store) : result PixelQuery :=
  match px, py with
  | Some x, Some y =>
    if (x <? 0) || (x >=? CANVAS_WIDTH) || (y <? 0) || (y >=? CANVAS_HEIGHT)
    then Err InvalidCoordinates
    else match canvas st !! (x, y) with
         | Some pixel => Ok (QTaken x y pixel)
         | None => Ok (QAvailable x y PIXEL_PRICE)
         end
  | _, _ => Err InvalidCoordinates
  end.

(** ** GET /images/:id *)

Definition get_image (id : string) (st : Store) : result GeneratedImage :=
  match generatedImages st !! id with
  | Some image => Ok image
  | None => Err ImageMissing
  end.

(** ** Sequential validation *)

(** The handlers validate by a sequence of [if (...) return res.status(400)]
    statements: the first test that fires decides the reply. *)
Definition bind {A B} (r : result A) (k : A → result B) : result B :=
  match r with
  | Ok a => k a
  | Err e => Err e
  end.

(** [if (b) return error e;] *)
Definition reject_if (b : bool) (e : error) : result unit :=
  if b then Err e else Ok tt.

Notation "'reject' e 'when' b ;; k" := (bind (reject_if b e) (fun _ => k))
  (at level 10, e at level 9, b at level 99, k at level 200,
   format "'[v' 'reject'  e  'when'  b  ;;  '/' k ']'").

(** ** Loops *)

(** [for (let i = lo; i < hi && continue(s); i++) s = body(i, s)], unfolded
    at most [fuel] times. *)
Fixpoint for_loop {S : Type} (fuel : nat) (i hi : Z) (continue : S → bool)
    (body : Z → S → S) (s : S) : S :=
  match fuel with
  | O => s
  | Datatypes.S fuel' =>
    if (i <? hi) && continue s
    then for_loop fuel' (i + 1) hi continue body (body i s)
    else s
  end.

(** The loop from [lo] to [hi] runs at most [hi - lo] times, so that much
    fuel is never exhausted (see [for_range_foldl]). *)
Definition for_range {S : Type} (lo hi : Z) (continue : S → bool)
    (body : Z → S → S) (s : S) : S :=
  for_loop (Z.to_nat (hi - lo)) lo hi continue body s.

Definition always {S : Type} (_ : S) : bool := true.

(** ** POST /ad *)

Record AdBody : Type := mkAdBody {
  ab_x : json; ab_y : json; ab_width : json; ab_height : json;
  ab_imageId : json; ab_linkUrl : json; ab_title : json; ab_owner : json
}.

(** What the handler reads from its environment: the identifier
    [`ad_${Date.now()}_${Math.random()...}`], the clock at the time a cell is
    painted, the clock at the time the record is built, and [PORT]. *)
Record AdEnv : Type := mkAdEnv {
  env_adId : string;
  env_clock : Z → Z → Z;
  env_now : Z;
  env_port : string
}.

(** The validated fields of a placement request. *)
Record AdArgs : Type := mkAdArgs {
  aa_x : Z; aa_y : Z; aa_width : Z; aa_height : Z;
  aa_imageId : string; aa_linkUrl : string; aa_title : string
}.

Definition as_string (v : json) : string :=
  match v with JStr s => s | _ => "" end.

(** [!v || typeof v !== "string"] *)
Definition missing_string (v : json) : bool :=
  negb (truthy v) || negb (is_string v).

Definition has_image (st : Store) (id : string) : bool :=
  bool_decide (is_Some (generatedImages st !! id)).

(** The validation part of the handler, in the order of the source. *)
Definition ad_checks (body : AdBody) (st : Store) : result AdArgs :=
  match ab_x body, ab_y body, ab_width body, ab_height body with
  | JNum x, JNum y, JNum width, JNum height =>
    reject MinimumAdSize when (width <? 10) || (height <? 10) ;;
    reject NotMultiplesOfTen
      when negb (Z.rem width 10 =? 0) || negb (Z.rem height 10 =? 0) ;;
    reject MaximumAdSize when (width >? 100) || (height >? 100) ;;
    reject OutsideCanvas
      when (x <? 0) || (y <? 0) || (x + width >? CANVAS_WIDTH)
           || (y + height >? CANVAS_HEIGHT) ;;
    reject ImageIdRequired when missing_string (ab_imageId body) ;;
    reject ImageNotFound when negb (has_image st (as_string (ab_imageId body))) ;;
    reject LinkUrlRequired when missing_string (ab_linkUrl body) ;;
    reject TitleRequired when missing_string (ab_title body) ;;
    Ok {| aa_x := x; aa_y := y; aa_width := width; aa_height := height;
          aa_imageId := as_string (ab_imageId body);
          aa_linkUrl := as_string (ab_linkUrl body);
          aa_title := as_string (ab_title body) |}
  | _, _, _, _ => Err DimsNotNumbers
  end.

(** The body of the inner loop: count the cell if it is new, then
    overwrite it. *)
Definition paint_ad_cell (env : AdEnv) (who : json) (px py : Z)
    (s : gmap (Z * Z) PixelData * Z) : gmap (Z * Z) PixelData * Z :=
  let key := (px, py) in
  let newPixels :=
    if bool_decide (is_Some (s.1 !! key)) then s.2 else s.2 + 1 in
  (<[key := {| color := "#AD0000";
               owner := js_or who (JStr "anonymous");
               url := JUndefined;
               adId := Some (env_adId env);
               timestamp := env_clock env px py |}]> s.1,
   newPixels).

(** Mark all pixels in the rectangle as belonging to this ad. *)
Definition paint_rect (env : AdEnv) (who : json) (x y width height : Z)
    (s : gmap (Z * Z) PixelData * Z) : gmap (Z * Z) PixelData * Z :=
  for_range x (x + width) always
    (fun px s1 =>
       for_range y (y + height) always (fun py s2 => paint_ad_cell env who px py s2) s1)
    s.

(** The reply spreads the placement record and adds two fields. *)
Record AdReply : Type := mkAdReply {
  ar_placement : AdPlacement;
  ar_newPixels : Z;
  ar_totalPixelsSold : Z
}.

Definition image_url (port id : string) : string :=
  ("http://localhost:" ++ port ++ "/images/" ++ id)%string.

Definition post_ad (env : AdEnv) (body : AdBody) (st : Store)
  : result AdReply * Store :=
  match ad_checks body st with
  | Err e => (Err e, st)
  | Ok a =>
    let pixelCount := aa_width a * aa_height a in
    let painted :=
      paint_rect env (ab_owner body) (aa_x a) (aa_y a) (aa_width a) (aa_height a)
                 (canvas st, 0) in
    let newPixels := painted.2 in
    let sold1 := totalPixelsSold st + newPixels in
    let revenue1 := (totalRevenue st + inject_Z newPixels * PIXEL_PRICE)%Q in
    let placement :=
      {| ad_id := env_adId env;
         ad_owner := js_or (ab_owner body) (JStr "anonymous");
         ad_x := aa_x a; ad_y := aa_y a;
         ad_width := aa_width a; ad_height := aa_height a;
         ad_pixels := pixelCount;
         ad_totalCost := (inject_Z pixelCount * PIXEL_PRICE)%Q;
         ad_imageId := aa_imageId a;
         ad_imageUrl := image_url (env_port env) (aa_imageId a);
         ad_linkUrl := aa_linkUrl a;
         ad_title := aa_title a;
         ad_timestamp := env_now env |} in
    (Ok {| ar_placement := placement;
           ar_newPixels := newPixels;
           ar_totalPixelsSold := sold1 |},
     {| canvas := painted.1;
        adPlacements := adPlacements st ++ [placement];
        generatedImages := generatedImages st;
        totalRevenue := revenue1;
        totalPixelsSold := sold1 |})
  end.

(** ** POST /generate-image *)

Record GenBody : Type := mkGenBody {
  gb_prompt : json; gb_width : json; gb_height : json
}.

(** The environment of one call: the bytes obtained from the image model
    ([None] when the call throws or returns no image data), the identifier
    [`img_${Date.now()}_${Math.random()...}`] and [PORT]. *)
Record GenEnv : Type := mkGenEnv {
  gen_image : option (list Byte.byte);
  gen_imageId : string;
  gen_port : string
}.

Record GenReply : Type := mkGenReply {
  gr_imageId : string; gr_imageUrl : string; gr_width : Z; gr_height : Z
}.

Definition gen_checks (body : GenBody) : result (Z * Z) :=
  match gb_width body, gb_height body with
  | JNum width, JNum height =>
    reject GenMinimum when (width <? 10) || (height <? 10) ;;
    reject GenNotMultiplesOfTen
      when negb (Z.rem width 10 =? 0) || negb (Z.rem height 10 =? 0) ;;
    reject PromptRequired when missing_string (gb_prompt body) ;;
    Ok (width, height)
  | _, _ => Err GenDimsNotNumbers
  end.

Definition post_generate_image (env : GenEnv) (body : GenBody) (st : Store)
  : result GenReply * Store :=
  match gen_checks body with
  | Err e => (Err e, st)
  | Ok (width, height) =>
    match gen_image env with
    | None => (Err GenerationFailed, st)
    | Some imageBuffer =>
      (Ok {| gr_imageId := gen_imageId env;
             gr_imageUrl := image_url (gen_port env) (gen_imageId env);
             gr_width := width; gr_height := height |},
       {| canvas := canvas st;
          adPlacements := adPlacements st;
          generatedImages :=
            <[gen_imageId env := {| data := imageBuffer;
                                    contentType := "image/png" |}]>
              (generatedImages st);
          totalRevenue := totalRevenue st;
          totalPixelsSold := totalPixelsSold st |})
    end
  end.

(** ** Requests and runs of the server *)

(** The requests that reach a handler.  The [GET] handlers only read the
    store. *)
Inductive request : Type :=
  | PostPixel (now : Z) (body : PixelBody)
  | PostAd (env : AdEnv) (body : AdBody)
  | PostGenerateImage (env : GenEnv) (body : GenBody)
  | Get.

Definition handle (r : request) (st : Store) : Store :=
  match r with
  | PostPixel now body => (post_pixel now body st).2
  | PostAd env body => (post_ad env body st).2
  | PostGenerateImage env body => (post_generate_image env body st).2
  | Get => st
  end.

(** Whether the request is answered with [success: true]. *)
Definition accepted (r : request) (st : Store) : bool :=
  match r with
  | PostPixel now body => is_ok (post_pixel now body st).1
  | PostAd env body => is_ok (post_ad env body st).1
  | PostGenerateImage env body => is_ok (post_generate_image env body st).1
  | Get => true
  end.

(** The server handles its requests one after the other. *)
Definition run (rs : list request) (st : Store) : Store :=
  foldl (fun s r => handle r s) st rs.

(** ** The agent's empty-space search *)

(** [Math.floor(Math.random() * n)], where [r] is the value returned by
    [Math.random()].  The product is taken exactly; the double product of
    the source stays below [n] for the [n] at hand, so every outcome of the
    source is the outcome of some [r] here. *)
Definition random_floor (r : Q) (n : Z) : Z := Qfloor (r * inject_Z n).

(** [Math.floor(v / 10) * 10] *)
Definition snap10 (v : Z) : Z := v / 10 * 10.

(** The first loop: [count] candidates are pushed; the [k]-th call of
    [Math.random()] returns [rnd k].  The result carries the number of
    calls made so far. *)
Fixpoint push_candidates (count : nat) (rnd : nat → Q) (k : nat)
    (width height : Z) (candidates : list (Z * Z)) : list (Z * Z) * nat :=
  match count with
  | O => (candidates, k)
  | Datatypes.S count' =>
    let cx := random_floor (rnd k) (1000 - width) in
    let cy := random_floor (rnd (Datatypes.S k)) (1000 - height) in
    push_candidates count' rnd (Datatypes.S (Datatypes.S k)) width height
                    (candidates ++ [(cx, cy)])
  end.

(** Round to the 10-pixel grid. *)
Definition snap_candidates (candidates : list (Z * Z)) : list (Z * Z) :=
  map (fun c => (snap10 c.1, snap10 c.2)) candidates.

(** [[a[i], a[j]] = [a[j], a[i]]], for indices inside the array. *)
Definition swap (a : list (Z * Z)) (i j : nat) : list (Z * Z) :=
  match a !! i, a !! j with
  | Some ci, Some cj => <[j := ci]> (<[i := cj]> a)
  | _, _ => a
  end.

(** [for (let i = ...; i > 0; i--) { j = floor(random * (i + 1)); swap }] *)
Fixpoint shuffle_from (i : nat) (rnd : nat → Q) (k : nat)
    (candidates : list (Z * Z)) : list (Z * Z) :=
  match i with
  | O => candidates
  | Datatypes.S i' =>
    let j := Z.to_nat (random_floor (rnd k) (Z.of_nat i + 1)) in
    shuffle_from i' rnd (Datatypes.S k) (swap candidates i j)
  end.

Definition shuffle (rnd : nat → Q) (k : nat) (candidates : list (Z * Z))
  : list (Z * Z) :=
  shuffle_from (length candidates - 1) rnd k candidates.

(** The two nested loops that clear [isEmpty] as soon as an occupied
    coordinate is met. *)
Definition rect_is_empty (occupied : gset (Z * Z)) (cx cy width height : Z)
  : bool :=
  for_range cx (cx + width) id
    (fun px isEmpty =>
       for_range cy (cy + height) id
         (fun py isEmpty' =>
            if bool_decide ((px, py) ∈ occupied) then false else isEmpty')
         isEmpty)
    true.

Inductive FindResult : Type :=
  | Found (x y width height : Z)
  | NotFound.

(** Check each candidate. *)
Fixpoint check_candidates (occupied : gset (Z * Z)) (width height : Z)
    (candidates : list (Z * Z)) : FindResult :=
  match candidates with
  | [] => NotFound
  | (cx, cy) :: rest =>
    if (cx <? 0) || (cy <? 0)
    then check_candidates occupied width height rest
    else if (cx + width >? 1000) || (cy + height >? 1000)
    then check_candidates occupied width height rest
    else if rect_is_empty occupied cx cy width height
    then Found cx cy width height
    else check_candidates occupied width height rest
  end.

(** [findEmptySpace], after the canvas snapshot has been fetched: [pixels]
    are the coordinates of [data.pixels]. *)
Definition findEmptySpace (rnd : nat → Q) (pixels : list (Z * Z))
    (width height : Z) : FindResult :=
  let occupied : gset (Z * Z) := list_to_set pixels in
  let '(candidates, k) := push_candidates 100 rnd 0 width height [] in
  let candidates := snap_candidates candidates in
  let candidates := shuffle rnd k candidates in
  check_candidates occupied width height candidates.

(** The outcomes of [Math.random()]: numbers in [[0, 1)]. *)
Definition random_source (rnd : nat → Q) : Prop :=
  ∀ k, (0 <= rnd k)%Q ∧ (rnd k < 1)%Q.

(** * Vocabulary of the properties *)

(** ** Rectangles and fresh coordinates *)

(** The coordinates of the rectangle, in the order the two loops of
    [POST /ad] visit them. *)
Definition rect_coords (x y width height : Z) : list (Z * Z) :=
  px ← seqZ x width; (fun py => (px, py)) <$> seqZ y height.

(** The cell the ad handler writes at [k]. *)
Definition ad_cell (env : AdEnv) (who : json) (k : Z * Z) : PixelData :=
  {| color := "#AD0000";
     owner := js_or who (JStr "anonymous");
     url := JUndefined;
     adId := Some (env_adId env);
     timestamp := env_clock env k.1 k.2 |}.

(** The ad handler's loop body folded over a list of coordinates. *)
Definition paint_list (env : AdEnv) (who : json) (ks : list (Z * Z))
    (s : gmap (Z * Z) PixelData * Z) : gmap (Z * Z) PixelData * Z :=
  foldl (fun s k => paint_ad_cell env who k.1 k.2 s) s ks.

(** A coordinate is fresh when the canvas holds nothing there. *)
Definition fresh_in (m : gmap (Z * Z) PixelData) (k : Z * Z) : Prop :=
  m !! k = None.

#[global] Instance fresh_in_dec m k : Decision (fresh_in m k).
Proof. unfold fresh_in. destruct (m !! k); [right|left]; done. Defined.

(** How many of the coordinates [ks] are unpainted in [m]. *)
Definition count_fresh (m : gmap (Z * Z) PixelData) (ks : list (Z * Z)) : Z :=
  Z.of_nat (length (filter (fresh_in m) ks)).

(** ** Requirements on a placement request *)

(** What an accepted placement request looks like. *)
Record ad_valid (body : AdBody) (st : Store) (a : AdArgs) : Prop := {
  av_x : ab_x body = JNum (aa_x a);
  av_y : ab_y body = JNum (aa_y a);
  av_width : ab_width body = JNum (aa_width a);
  av_height : ab_height body = JNum (aa_height a);
  av_width_range : 10 ≤ aa_width a ≤ 100;
  av_height_range : 10 ≤ aa_height a ≤ 100;
  av_width_aligned : aa_width a mod 10 = 0;
  av_height_aligned : aa_height a mod 10 = 0;
  av_inside : 0 ≤ aa_x a ∧ 0 ≤ aa_y a
              ∧ aa_x a + aa_width a ≤ CANVAS_WIDTH
              ∧ aa_y a + aa_height a ≤ CANVAS_HEIGHT;
  av_image : ab_imageId body = JStr (aa_imageId a) ∧ aa_imageId a ≠ ""%string
             ∧ is_Some (generatedImages st !! aa_imageId a);
  av_linkUrl : ab_linkUrl body = JStr (aa_linkUrl a) ∧ aa_linkUrl a ≠ ""%string;
  av_title : ab_title body = JStr (aa_title a) ∧ aa_title a ≠ ""%string
}.

(** The number held by a numeric field. *)
Definition num (v : json) : Z :=
  match v with JNum n => n | _ => 0 end.

(** The requirements on a placement request, as conditions on its body. *)
Definition numeric_dims (body : AdBody) : bool :=
  is_number (ab_x body) && is_number (ab_y body)
  && is_number (ab_width body) && is_number (ab_height body).

Definition big_enough (body : AdBody) : bool :=
  (10 <=? num (ab_width body)) && (10 <=? num (ab_height body)).

Definition small_enough (body : AdBody) : bool :=
  (num (ab_width body) <=? 100) && (num (ab_height body) <=? 100).

Definition aligned (body : AdBody) : bool :=
  (num (ab_width body) mod 10 =? 0) && (num (ab_height body) mod 10 =? 0).

Definition inside_grid (body : AdBody) : bool :=
  (0 <=? num (ab_x body)) && (0 <=? num (ab_y body))
  && (num (ab_x body) + num (ab_width body) <=? 1000)
  && (num (ab_y body) + num (ab_height body) <=? 1000).

(** The image handle is a non-empty string naming a stored image. *)
Definition image_resolves (body : AdBody) (st : Store) : bool :=
  match ab_imageId body with
  | JStr s => negb (String.eqb s "") && bool_decide (is_Some (generatedImages st !! s))
  | _ => false
  end.

Definition nonempty_string (v : json) : bool :=
  match v with JStr s => negb (String.eqb s "") | _ => false end.

Definition texts_present (body : AdBody) : bool :=
  nonempty_string (ab_linkUrl body) && nonempty_string (ab_title body).

(** A validation order is a list of requirements, each with the failure
    reported when it is the first one violated. *)
Fixpoint first_failure (stages : list (bool * failure_kind))
  : option failure_kind :=
  match stages with
  | [] => None
  | (holds, kind) :: rest => if holds then first_failure rest else Some kind
  end.

(** The order in which [POST /ad] validates. *)
Definition ad_stages (body : AdBody) (st : Store) : list (bool * failure_kind) :=
  [ (numeric_dims body, InvalidInput);
    (big_enough body, TooSmall);
    (aligned body, Misaligned);
    (small_enough body, TooLarge);
    (inside_grid body, OutOfBounds);
    (image_resolves body st, UnknownImage);
    (texts_present body, InvalidInput) ].

(** The failure kind with which a handler's validation rejects, if it does. *)
Definition failure_of {A} (r : result A) : option failure_kind :=
  match r with Ok _ => None | Err e => Some (kind_of e) end.

(** ** What a request writes *)

(** The coordinates a write request addresses. *)
Definition write_coords (r : request) : list (Z * Z) :=
  match r with
  | PostPixel _ body => [(num (pb_x body), num (pb_y body))]
  | PostAd _ body =>
    rect_coords (num (ab_x body)) (num (ab_y body))
                (num (ab_width body)) (num (ab_height body))
  | PostGenerateImage _ _ | Get => []
  end.

(** [newPixels]: how many of them are unpainted in [st]. *)
Definition new_pixels (r : request) (st : Store) : Z :=
  count_fresh (canvas st) (write_coords r).


(** Every request of the run is accepted in the state in which it is
    handled. *)
Fixpoint all_accepted (rs : list request) (st : Store) : bool :=
  match rs with
  | [] => true
  | r :: rs' => accepted r st && all_accepted rs' (handle r st)
  end.


(** ** Candidates of the empty-space search *)

(** A candidate on the 10-pixel grid, far enough from the right and bottom
    edges. *)
Definition grid_candidate (width height : Z) (c : Z * Z) : Prop :=
  c.1 mod 10 = 0 ∧ c.2 mod 10 = 0
  ∧ 0 ≤ c.1 ∧ 0 ≤ c.2 ∧ c.1 + width ≤ 1000 ∧ c.2 + height ≤ 1000.

(** ** Normalised colours *)

Definition is_upper_hex_digit (c : ascii) : bool :=
  let n := nat_of_ascii c in
  ((48 <=? n)%nat && (n <=? 57)%nat) || ((65 <=? n)%nat && (n <=? 70)%nat).

Fixpoint upper_hex_digits (k : nat) (s : string) : bool :=
  match k, s with
  | O, EmptyString => true
  | S k', String c s' => is_upper_hex_digit c && upper_hex_digits k' s'
  | _, _ => false
  end.

(** [#] followed by six digits among [0-9A-F]. *)
Definition upper_color (s : string) : bool :=
  match s with
  | String c rest => Ascii.eqb c "#"%char && upper_hex_digits 6 rest
  | EmptyString => false
  end.

(** ** Requirements on a paint request *)

Definition numeric_xy (body : PixelBody) : bool :=
  is_number (pb_x body) && is_number (pb_y body).

Definition in_range (body : PixelBody) : bool :=
  (0 <=? num (pb_x body)) && (num (pb_x body) <? 1000)
  && (0 <=? num (pb_y body)) && (num (pb_y body) <? 1000).

(** The colour is a string matching the 6-hex-digit pattern. *)
Definition color_matches (body : PixelBody) : bool :=
  match pb_color body with JStr c => color_re_test c | _ => false end.

Definition pixel_stages (body : PixelBody) : list (bool * failure_kind) :=
  [ (numeric_xy body, InvalidInput);
    (in_range body, OutOfBounds);
    (color_matches body, InvalidColor) ].

(** ** Sample requests and stores *)

Definition sample_image : GeneratedImage :=
  {| data := []; contentType := "image/png" |}.

(** A store holding one generated image and nothing else. *)
Definition gallery : Store :=
  {| canvas := ∅; adPlacements := [];
     generatedImages := {[ "img_1"%string := sample_image ]};
     totalRevenue := 0%Q; totalPixelsSold := 0 |}.

Definition ad_at (x y width height : Z) : AdBody :=
  {| ab_x := JNum x; ab_y := JNum y;
     ab_width := JNum width; ab_height := JNum height;
     ab_imageId := JStr "img_1"; ab_linkUrl := JStr "https://example.com";
     ab_title := JStr "Example"; ab_owner := JStr "0xA" |}.

Definition env_1 : AdEnv :=
  {| env_adId := "ad_1"; env_clock := fun _ _ => 1; env_now := 1;
     env_port := "4021" |}.

Definition env_2 : AdEnv :=
  {| env_adId := "ad_2"; env_clock := fun _ _ => 2; env_now := 2;
     env_port := "4021" |}.

Definition gen_1 : GenEnv :=
  {| gen_image := Some []; gen_imageId := "img_1"; gen_port := "4021" |}.

Definition gen_body : GenBody :=
  {| gb_prompt := JStr "a banner"; gb_width := JNum 20; gb_height := JNum 20 |}.

Definition paint (x y : Z) (c who : string) : PixelBody :=
  {| pb_x := JNum x; pb_y := JNum y; pb_color := JStr c;
     pb_owner := JStr who; pb_url := JUndefined |}.

(** A source of random numbers in [[0, 1)]. *)
Definition sample_rnd (k : nat) : Q :=
  ((Z.of_nat k * 7919 + 13) mod 1000) # 1000.

(** ** Readings of the design document that the handlers do not follow *)

(** The order of the design document: the maximum size is tested before
    the alignment. *)
Definition documented_ad_stages (body : AdBody) (st : Store)
  : list (bool * failure_kind) :=
  [ (numeric_dims body, InvalidInput);
    (big_enough body, TooSmall);
    (small_enough body, TooLarge);
    (aligned body, Misaligned);
    (inside_grid body, OutOfBounds);
    (image_resolves body st, UnknownImage);
    (texts_present body, InvalidInput) ].

(** The two rules of the design document read on their own: with numeric
    coordinates the failure is [OutOfBounds] exactly when a coordinate is
    outside the grid, and the failure is [InvalidColor] exactly when the
    colour does not match the pattern. *)
Definition documented_pixel_failure (body : PixelBody)
    (failure : option failure_kind) : Prop :=
  (numeric_xy body = true →
   (failure = Some OutOfBounds ↔ in_range body = false))
  ∧ (failure = Some InvalidColor ↔ color_matches body = false).

(** Every image handle of the ledger is referenced by one placement only. *)
Definition single_use (st : Store) : Prop :=
  NoDup (ad_imageId <$> adPlacements st).

(** An image is generated, then placed twice. *)
Definition reuse_run : list request :=
  [ PostGenerateImage gen_1 gen_body;
    PostAd env_1 (ad_at 0 0 20 20);
    PostAd env_2 (ad_at 100 100 20 20) ].

(** * The read endpoints of the server, the viewer's hit test *)

(** ** GET /info *)

(** The [stats] object of the reply.  [percentageSold] and [totalRevenue]
    are the numbers printed by [toFixed(4)] and [toFixed(6)]: the exact
    values, which have no more decimals than that. *)
Record InfoStats : Type := mkInfoStats {
  pixelsSold : Z;
  pixelsRemaining : Z;
  percentageSold : Q;
  info_totalRevenue : Q;
  info_adPlacements : Z
}.

Definition get_info (st : Store) : InfoStats :=
  {| pixelsSold := totalPixelsSold st;
     pixelsRemaining := CANVAS_WIDTH * CANVAS_HEIGHT - totalPixelsSold st;
     percentageSold :=
       (inject_Z (totalPixelsSold st) / inject_Z (CANVAS_WIDTH * CANVAS_HEIGHT)
        * 100)%Q;
     info_totalRevenue := totalRevenue st;
     info_adPlacements := Z.of_nat (length (adPlacements st)) |}.

(** ** GET /canvas *)

Record CanvasPixel : Type := mkCanvasPixel {
  cp_x : Z; cp_y : Z; cp_color : string; cp_owner : json; cp_url : json
}.

Record CanvasReply : Type := mkCanvasReply {
  cr_width : Z;
  cr_height : Z;
  cr_pixels : list CanvasPixel;
  cr_totalPixels : Z
}.

(** [canvas.forEach] pushes one entry per key.  The entries come in the
    order of the map's traversal, which the store of this model does not
    record (the source's is the insertion order); nothing below depends on
    the order. *)
Definition get_canvas (st : Store) : CanvasReply :=
  let pixels :=
    (fun kv : (Z * Z) * PixelData =>
       {| cp_x := kv.1.1; cp_y := kv.1.2;
          cp_color := color kv.2; cp_owner := owner kv.2; cp_url := url kv.2 |})
    <$> map_to_list (canvas st) in
  {| cr_width := CANVAS_WIDTH;
     cr_height := CANVAS_HEIGHT;
     cr_pixels := pixels;
     cr_totalPixels := Z.of_nat (length pixels) |}.

(** ** GET /ads *)

Record AdsReply : Type := mkAdsReply {
  placements : list AdPlacement;
  ads_total : Z
}.

(** [{ ...ad, imageUrl: ... }] *)
Definition with_imageUrl (ad : AdPlacement) (u : string) : AdPlacement :=
  {| ad_id := ad_id ad; ad_owner := ad_owner ad;
     ad_x := ad_x ad; ad_y := ad_y ad;
     ad_width := ad_width ad; ad_height := ad_height ad;
     ad_pixels := ad_pixels ad; ad_totalCost := ad_totalCost ad;
     ad_imageId := ad_imageId ad; ad_imageUrl := u;
     ad_linkUrl := ad_linkUrl ad; ad_title := ad_title ad;
     ad_timestamp := ad_timestamp ad |}.

Definition get_ads (port : string) (st : Store) : AdsReply :=
  {| placements :=
       (fun ad => with_imageUrl ad (image_url port (ad_imageId ad)))
       <$> adPlacements st;
     ads_total := Z.of_nat (length (adPlacements st)) |}.

(** ** The viewer: which ad the mouse is over *)

(** [ads.find(a => pixelX >= a.x && pixelX < a.x + a.width && pixelY >= a.y
    && pixelY < a.y + a.height)], on the list fetched from [GET /ads]. *)
Definition hovered_ad (ads : list AdPlacement) (pixelX pixelY : Z)
  : option AdPlacement :=
  find (fun a =>
          (pixelX >=? ad_x a) && (pixelX <? ad_x a + ad_width a)
          && (pixelY >=? ad_y a) && (pixelY <? ad_y a + ad_height a))
       ads.

(** ** The agent's snapshot *)

(** The coordinates the agent reads off the reply of [GET /canvas]. *)
Definition snapshot_coords (reply : CanvasReply) : list (Z * Z) :=
  (fun pixel => (cp_x pixel, cp_y pixel)) <$> cr_pixels reply.

(** * Vocabulary of the further properties *)

(** A coordinate of the grid. *)
Definition in_grid (k : Z * Z) : Prop :=
  0 ≤ k.1 < CANVAS_WIDTH ∧ 0 ≤ k.2 < CANVAS_HEIGHT.

(** Every painted coordinate lies in the grid. *)
Definition keys_in_grid (st : Store) : Prop :=
  ∀ k, is_Some (canvas st !! k) → in_grid k.

(** The rectangle of a placement. *)
Definition ad_rect (p : AdPlacement) : list (Z * Z) :=
  rect_coords (ad_x p) (ad_y p) (ad_width p) (ad_height p).

(** Every cell that carries an ad id lies in the rectangle of a ledger
    record with that id. *)
Definition cells_traced (st : Store) : Prop :=
  ∀ k c id,
    canvas st !! k = Some c → adId c = Some id →
    ∃ p, p ∈ adPlacements st ∧ ad_id p = id ∧ k ∈ ad_rect p.

(** What the validation of [POST /ad] guarantees of a ledger record. *)
Record placement_wf (p : AdPlacement) : Prop := {
  pw_width : 10 ≤ ad_width p ≤ 100 ∧ ad_width p mod 10 = 0;
  pw_height : 10 ≤ ad_height p ≤ 100 ∧ ad_height p mod 10 = 0;
  pw_inside : 0 ≤ ad_x p ∧ 0 ≤ ad_y p
              ∧ ad_x p + ad_width p ≤ CANVAS_WIDTH
              ∧ ad_y p + ad_height p ≤ CANVAS_HEIGHT;
  pw_pixels : ad_pixels p = ad_width p * ad_height p;
  pw_cost : (ad_totalCost p == inject_Z (ad_pixels p) * PIXEL_PRICE)%Q;
  pw_texts : ad_imageId p ≠ ""%string ∧ ad_linkUrl p ≠ ""%string
             ∧ ad_title p ≠ ""%string
}.

(** The placements accepted along a run. *)
Fixpoint accepted_placements (rs : list request) (st : Store) : nat :=
  match rs with
  | [] => O
  | r :: rs' =>
    ((match r with
      | PostAd _ _ => if accepted r st then 1 else 0
      | _ => 0
      end) + accepted_placements rs' (handle r st))%nat
  end.

(** The requirements of [POST /generate-image], in the order it tests
    them; the last one is the reply of the image model. *)
Definition gen_stages (env : GenEnv) (body : GenBody)
  : list (bool * failure_kind) :=
  [ (is_number (gb_width body) && is_number (gb_height body), InvalidInput);
    ((10 <=? num (gb_width body)) && (10 <=? num (gb_height body)), TooSmall);
    ((num (gb_width body) mod 10 =? 0) && (num (gb_height body) mod 10 =? 0),
     Misaligned);
    (nonempty_string (gb_prompt body), InvalidInput);
    (bool_decide (is_Some (gen_image env)), UpstreamFailure) ].

(** The positions [findEmptySpace] samples: the 100 random candidates,
    rounded to the 10-pixel grid. *)
Definition sampled (rnd : nat → Q) (width height : Z) : list (Z * Z) :=
  snap_candidates (push_candidates 100 rnd 0 width height []).1.

(** A candidate the search passes over: it sticks out of the grid, or one
    coordinate of its rectangle is in the snapshot. *)
Definition blocked (pixels : list (Z * Z)) (width height : Z) (c : Z * Z)
  : Prop :=
  c.1 < 0 ∨ c.2 < 0 ∨ 1000 < c.1 + width ∨ 1000 < c.2 + height
  ∨ ∃ px py, c.1 ≤ px < c.1 + width ∧ c.2 ≤ py < c.2 + height
             ∧ (px, py) ∈ pixels.

(** * The agent *)

(** ** Size templates *)

Record AdSize : Type := mkAdSize {
  size_name : string;
  size_width : Z;
  size_height : Z;
  size_description : string;
  size_cost : string;
  size_useCase : string    (* when to use this size *)
}.

Definition adSizes : list AdSize :=
  [ {| size_name := "micro"; size_width := 10; size_height := 10;
       size_description := "Tiny icon ad"; size_cost := "$0.01";
       size_useCase :=
         "Simple logo or icon placement. Good for brand presence on a budget." |};
    {| size_name := "small"; size_width := 20; size_height := 20;
       size_description := "Small square ad"; size_cost := "$0.04";
       size_useCase := "Small logo with short text. Compact but readable." |};
    {| size_name := "banner"; size_width := 50; size_height := 20;
       size_description := "Horizontal banner"; size_cost := "$0.10";
       size_useCase := "Tagline-focused ads. Great for catchy slogans." |};
    {| size_name := "tall"; size_width := 20; size_height := 50;
       size_description := "Vertical skyscraper"; size_cost := "$0.10";
       size_useCase :=
         "Vertical logo with stacked text. Good for side placement." |};
    {| size_name := "medium"; size_width := 30; size_height := 30;
       size_description := "Medium square ad"; size_cost := "$0.09";
       size_useCase :=
         "Balanced space for logo and tagline. Versatile choice." |};
    {| size_name := "wide"; size_width := 40; size_height := 20;
       size_description := "Wide rectangle"; size_cost := "$0.08";
       size_useCase := "Landscape format. Good for product showcases." |};
    {| size_name := "large"; size_width := 50; size_height := 50;
       size_description := "Large square ad"; size_cost := "$0.25";
       size_useCase := "Premium placement. Room for imagery and text." |};
    {| size_name := "billboard"; size_width := 100; size_height := 40;
       size_description := "Wide billboard"; size_cost := "$0.40";
       size_useCase :=
         "Maximum visibility. Statement ad for major brands." |};
    {| size_name := "tower"; size_width := 30; size_height := 60;
       size_description := "Tall tower"; size_cost := "$0.18";
       size_useCase := "Vertical emphasis. Good for app-style ads." |} ].

(** ** Brands and styles *)

(** The tables [brands] and [adStyles] are data; the tools below take them
    as arguments. *)
Record Brand : Type := mkBrand {
  brand_name : string;
  brand_tagline : string;
  brand_linkUrl : string;
  brand_category : string;
  brand_primary : string;
  brand_secondary : string;
  brand_keywords : list string   (* used in image generation prompts *)
}.

Record AdStyle : Type := mkAdStyle {
  style_name : string;
  style_description : string;    (* detailed description for image generation *)
  style_suitableFor : list string
}.

(** ** Strings *)

(** [toLowerCase], on ASCII strings. *)
Definition lower_ascii (c : ascii) : ascii :=
  let n := nat_of_ascii c in
  if ((65 <=? n)%nat && (n <=? 90)%nat)%bool then ascii_of_nat (n + 32) else c.

Fixpoint toLowerCase (s : string) : string :=
  match s with
  | EmptyString => EmptyString
  | String c s' => String (lower_ascii c) (toLowerCase s')
  end.

(** [parts.join(sep)] *)
Fixpoint join (sep : string) (parts : list string) : string :=
  match parts with
  | [] => ""
  | [p] => p
  | p :: rest => (p ++ sep ++ join sep rest)%string
  end.

(** The decimal notation of an integer, as [`${n}`] prints it (below
    [10^21] in absolute value). *)
Definition string_of_Z (n : Z) : string :=
  DecimalString.NilZero.string_of_int (Z.to_int n).

Definition quote : string := String "034"%char EmptyString.
Definition newline : string := String "010"%char EmptyString.

(** ** Ad history tracking *)

Record PlacedAd : Type := mkPlacedAd {
  pa_brand : string;
  pa_style : string;
  pa_size : string;
  pa_round : Z;
  pa_timestamp : Z
}.

(** The state of the agent process and the server it talks to. *)
Record World : Type := mkWorld {
  server : Store;
  lastGeneratedAd : option (Brand * AdStyle * AdSize);
  placedAdsHistory : list PlacedAd;
  currentRound : Z
}.

Definition initial_world : World :=
  {| server := empty_store; lastGeneratedAd := None;
     placedAdsHistory := []; currentRound := 0 |}.

(** [history.slice(-10)] *)
Definition recent_ads (history : list PlacedAd) : list PlacedAd :=
  drop (length history - 10) history.

Definition history_line (a : PlacedAd) : string :=
  ("- Round " ++ string_of_Z (pa_round a) ++ ": " ++ pa_brand a
   ++ " (" ++ pa_style a ++ " style, " ++ pa_size a ++ " size)")%string.

Definition getRecentAdsContext (w : World) : string :=
  let recent := recent_ads (placedAdsHistory w) in
  if (length recent =? 0)%nat then "No ads placed yet in this session."
  else ("Recently placed ads:" ++ newline
        ++ join newline (history_line <$> recent))%string.

(** [now] is the value of [Date.now()]. *)
Definition recordPlacedAd (brand style size : string) (round now : Z)
    (w : World) : World :=
  {| server := server w;
     lastGeneratedAd := lastGeneratedAd w;
     placedAdsHistory :=
       placedAdsHistory w
       ++ [ {| pa_brand := brand; pa_style := style; pa_size := size;
               pa_round := round; pa_timestamp := now |} ];
     currentRound := currentRound w |}.

(** ** The journey of a request of the agent *)

(** What happens to a request on its way: it is lost ([fetch] throws
    before any handler runs), or answered with a reply that is not [ok]
    before it reaches its handler (the payment gate), or handled.  When it
    is handled, with the environment [env], the agent gets the handler's
    reply, or a reply that is not [ok] put in its place, or an exception of
    [fetch]. *)
Inductive Trip (Env : Type) : Type :=
  | Lost
  | Blocked
  | Delivered (env : Env)
  | DeliveredThenReplaced (env : Env)
  | DeliveredThenLost (env : Env).
Arguments Lost {Env}.
Arguments Blocked {Env}.
Arguments Delivered {Env} env.
Arguments DeliveredThenReplaced {Env} env.
Arguments DeliveredThenLost {Env} env.

(** The environment with which the handler runs, if it does. *)
Definition reaches {Env : Type} (trip : Trip Env) : option Env :=
  match trip with
  | Lost | Blocked => None
  | Delivered env | DeliveredThenReplaced env | DeliveredThenLost env => Some env
  end.

(** ** The tools *)

Inductive AgentError : Type :=
  | BrandNotFound (name : json)
  | StyleNotFound (name : json)
  | SizeNotFound (name : json)
  | ServerSaid (e : error)       (* the error text of the handler's reply *)
  | GateSaid                     (* a reply that is not ok, not the handler's *)
  | Caught.                      (* [catch (err)] *)

Record ImageOffer : Type := mkImageOffer {
  io_imageId : string;
  io_imageUrl : string;
  io_brand : string;
  io_linkUrl : string;
  io_suggestedTitle : string;
  io_width : Z;
  io_height : Z;
  io_cost : string
}.

Inductive ToolResult : Type :=
  | ToolError (e : AgentError)
  | ImageReady (offer : ImageOffer)
  | AdPlaced (reply : AdReply)
  | SpaceFound (x y width height : Z)
  | NoSpace
  | Thrown.                      (* an exception that leaves the tool *)

(** [table.find(e => e.name.toLowerCase() === wanted.toLowerCase())]: the
    outer [None] is the [TypeError] raised at the first entry when [wanted]
    is not a string. *)
Fixpoint find_named {A : Type} (name_of : A → string) (wanted : json)
    (table : list A) : option (option A) :=
  match table with
  | [] => Some None
  | entry :: rest =>
    match wanted with
    | JStr s =>
      if String.eqb (toLowerCase (name_of entry)) (toLowerCase s)
      then Some (Some entry)
      else find_named name_of wanted rest
    | _ => None
    end
  end.

(** The prompt of [generateAdImage], after [trim()]: the template starts
    with a line break and ends with a line break and two spaces, which is
    all that [trim()] removes. *)
Definition ad_prompt (brand : Brand) (style : AdStyle) (size : AdSize)
    (customPrompt : option string) : string :=
  ("Create an advertisement banner for " ++ quote ++ brand_name brand ++ quote
   ++ " with the tagline " ++ quote ++ brand_tagline brand ++ quote ++ "."
   ++ newline ++ newline
   ++ "STYLE: " ++ style_description style
   ++ newline ++ newline
   ++ "COLORS: Primary color " ++ brand_primary brand
   ++ ", secondary color " ++ brand_secondary brand
   ++ ". Use these colors prominently."
   ++ newline ++ newline
   ++ "VISUAL ELEMENTS: Include imagery related to: "
   ++ join ", " (brand_keywords brand) ++ "."
   ++ newline ++ newline
   ++ "TEXT: Include the brand name " ++ quote ++ brand_name brand ++ quote
   ++ " and optionally the tagline " ++ quote ++ brand_tagline brand ++ quote
   ++ " if space allows."
   ++ newline ++ newline
   ++ (match customPrompt with
       | Some direction =>
         if String.eqb direction "" then ""
         else "ADDITIONAL DIRECTION: " ++ direction
       | None => ""
       end)
   ++ newline ++ newline
   ++ "The ad should be eye-catching and readable even at a small size ("
   ++ string_of_Z (size_width size) ++ "x" ++ string_of_Z (size_height size)
   ++ " pixels).")%string.

Definition with_server (w : World) (st : Store) : World :=
  {| server := st; lastGeneratedAd := lastGeneratedAd w;
     placedAdsHistory := placedAdsHistory w; currentRound := currentRound w |}.

Definition with_lastGeneratedAd (w : World) (ad : Brand * AdStyle * AdSize)
  : World :=
  {| server := server w; lastGeneratedAd := Some ad;
     placedAdsHistory := placedAdsHistory w; currentRound := currentRound w |}.

(** [customPrompt] is the optional string of the tool's input; [trip] is
    the journey of the request to [POST /generate-image]. *)
Definition generateAdImage (brands : list Brand) (adStyles : list AdStyle)
    (brandName styleName sizeName : json) (customPrompt : option string)
    (trip : Trip GenEnv) (w : World) : ToolResult * World :=
  match find_named brand_name brandName brands with
  | None => (Thrown, w)
  | Some brand =>
    match find_named style_name styleName adStyles with
    | None => (Thrown, w)
    | Some style =>
      match find_named size_name sizeName adSizes with
      | None => (Thrown, w)
      | Some size =>
        match brand, style, size with
        | None, _, _ => (ToolError (BrandNotFound brandName), w)
        | Some _, None, _ => (ToolError (StyleNotFound styleName), w)
        | Some _, Some _, None => (ToolError (SizeNotFound sizeName), w)
        | Some brand, Some style, Some size =>
          let body :=
            {| gb_prompt := JStr (ad_prompt brand style size customPrompt);
               gb_width := JNum (size_width size);
               gb_height := JNum (size_height size) |} in
          match trip with
          | Lost => (ToolError Caught, w)
          | Blocked => (ToolError GateSaid, w)
          | DeliveredThenLost env =>
            (ToolError Caught,
             with_server w (post_generate_image env body (server w)).2)
          | DeliveredThenReplaced env =>
            (ToolError GateSaid,
             with_server w (post_generate_image env body (server w)).2)
          | Delivered env =>
            let handled := post_generate_image env body (server w) in
            let w1 := with_server w handled.2 in
            match handled.1 with
            | Ok data =>
              (ImageReady
                 {| io_imageId := gr_imageId data;
                    io_imageUrl := gr_imageUrl data;
                    io_brand := brand_name brand;
                    io_linkUrl := brand_linkUrl brand;
                    io_suggestedTitle :=
                      (brand_name brand ++ " - " ++ brand_tagline brand)%string;
                    io_width := size_width size;
                    io_height := size_height size;
                    io_cost := size_cost size |},
               with_lastGeneratedAd w1 (brand, style, size))
            | Err e => (ToolError (ServerSaid e), w1)
            end
          end
        end
      end
    end
  end.

(** [address] is [account.address], [trip] the journey of the paid request
    to [POST /ad], [now] the value of [Date.now()] when the placed ad is
    recorded. *)
Definition placeAd (address : string)
    (x y width height imageId linkUrl title : json)
    (trip : Trip AdEnv) (now : Z) (w : World) : ToolResult * World :=
  let body :=
    {| ab_x := x; ab_y := y; ab_width := width; ab_height := height;
       ab_imageId := imageId; ab_linkUrl := linkUrl; ab_title := title;
       ab_owner := JStr address |} in
  match trip with
  | Lost => (ToolError Caught, w)
  | Blocked => (ToolError GateSaid, w)
  | DeliveredThenLost env =>
    (ToolError Caught, with_server w (post_ad env body (server w)).2)
  | DeliveredThenReplaced env =>
    (ToolError GateSaid, with_server w (post_ad env body (server w)).2)
  | Delivered env =>
    let handled := post_ad env body (server w) in
    let w1 := with_server w handled.2 in
    match handled.1 with
    | Ok data =>
      (AdPlaced data,
       match lastGeneratedAd w1 with
       | Some (brand, style, size) =>
         recordPlacedAd (brand_name brand) (style_name style) (size_name size)
                        (currentRound w1) now w1
       | None => w1
       end)
    | Err e => (ToolError (ServerSaid e), w1)
    end
  end.

(** [findEmptySpace] as a tool: the snapshot is the reply of
    [GET /canvas], when there is one. *)
Definition findEmptySpace_tool (rnd : nat → Q) (received : bool)
    (width height : Z) (w : World) : ToolResult :=
  if received then
    match findEmptySpace rnd (snapshot_coords (get_canvas (server w)))
                         width height with
    | Found x y width' height' => SpaceFound x y width' height'
    | NotFound => NoSpace
    end
  else ToolError Caught.

(** ** What the agent does, step by step *)

(** A call of one of the two tools that write, the start of the next round
    ([currentRound++]), or a request that another client sends to the
    server. *)
Inductive Action : Type :=
  | CallGenerate (brandName styleName sizeName : json)
      (customPrompt : option string) (trip : Trip GenEnv)
  | CallPlace (x y width height imageId linkUrl title : json)
      (trip : Trip AdEnv) (now : Z)
  | NextRound
  | Elsewhere (r : request).

Definition act (brands : list Brand) (adStyles : list AdStyle)
    (address : string) (a : Action) (w : World) : World :=
  match a with
  | CallGenerate brandName styleName sizeName customPrompt trip =>
    (generateAdImage brands adStyles brandName styleName sizeName customPrompt
                     trip w).2
  | CallPlace x y width height imageId linkUrl title trip now =>
    (placeAd address x y width height imageId linkUrl title trip now w).2
  | NextRound =>
    {| server := server w; lastGeneratedAd := lastGeneratedAd w;
       placedAdsHistory := placedAdsHistory w;
       currentRound := currentRound w + 1 |}
  | Elsewhere r => with_server w (handle r (server w))
  end.

Definition run_agent (brands : list Brand) (adStyles : list AdStyle)
    (address : string) (actions : list Action) (w : World) : World :=
  foldl (fun w a => act brands adStyles address a w) w actions.

(** The size policy of [POST /ad]. *)
Definition size_within_policy (width height : Z) : Prop :=
  10 ≤ width ≤ 100 ∧ 10 ≤ height ≤ 100
  ∧ width mod 10 = 0 ∧ height mod 10 = 0.

(** The amount a price tag such as [$0.25] states: digits, a point, two
    digits. *)
Definition digit_value (c : ascii) : option Z :=
  let n := nat_of_ascii c in
  if ((48 <=? n)%nat && (n <=? 57)%nat)%bool then Some (Z.of_nat n - 48) else None.

Definition price_tag (s : string) : option Q :=
  match s with
  | String "$" (String d0 (String "." (String d1 (String d2 EmptyString)))) =>
    match digit_value d0, digit_value d1, digit_value d2 with
    | Some a, Some b, Some c => Some ((a * 100 + b * 10 + c) # 100)
    | _, _, _ => None
    end
  | _ => None
  end.

(** A brand, a style and a size named in the tables the agent was started
    with. *)
Definition from_tables (brands : list Brand) (adStyles : list AdStyle)
    (brand style size : string) : Prop :=
  (∃ b, b ∈ brands ∧ brand = brand_name b)
  ∧ (∃ s, s ∈ adStyles ∧ style = style_name s)
  ∧ (∃ z, z ∈ adSizes ∧ size = size_name z).

(** What the agent's memory holds: it records no more ads than the ledger
    holds, the ad it generated last and the ads it recorded come from the
    tables, no record is of a round yet to come, and the records are in the
    order of the rounds. *)
Record agent_inv (brands : list Brand) (adStyles : list AdStyle) (w : World)
  : Prop := {
  inv_history_ledger :
    (length (placedAdsHistory w) ≤ length (adPlacements (server w)))%nat;
  inv_last :
    ∀ b s z, lastGeneratedAd w = Some (b, s, z) →
             b ∈ brands ∧ s ∈ adStyles ∧ z ∈ adSizes;
  inv_history :
    Forall (fun a => from_tables brands adStyles (pa_brand a) (pa_style a) (pa_size a)
                     ∧ pa_round a ≤ currentRound w)
           (placedAdsHistory w);
  inv_chronological :
    ∀ i j a b, (i ≤ j)%nat →
               placedAdsHistory w !! i = Some a → placedAdsHistory w !! j = Some b →
               pa_round a ≤ pa_round b
}.

(** * The keys of the canvas *)

(** The store above is keyed by the pair of coordinates; the source keys
    its map by the string [`${x},${y}`] (part_002, lines 785, 836 and 949;
    the agent builds the same string, sizes.ts, lines 634 and 668), and
    [GET /canvas] reads the coordinates back off the key (line 652). *)
Definition canvas_key (x y : Z) : string :=
  (string_of_Z x ++ "," ++ string_of_Z y)%string.

(** [s.split(sep)], for a separator of one character. *)
Fixpoint split_on (sep : ascii) (s : string) : list string :=
  match s with
  | EmptyString => [EmptyString]
  | String c rest =>
    if Ascii.eqb c sep then EmptyString :: split_on sep rest
    else match split_on sep rest with
         | [] => [String c EmptyString]
         | piece :: pieces => String c piece :: pieces
         end
  end.

(** [Number(s)] on the decimal notation of an integer, an optional minus
    sign and at least one digit; [None] stands for every other string. *)
Definition Number_of_string (s : string) : option Z :=
  Z.of_int <$> DecimalString.NilZero.int_of_string s.

(** [key.split(",").map(Number)] *)
Definition key_coords (key : string) : list (option Z) :=
  Number_of_string <$> split_on "," key.

(** Whether a character occurs in a string. *)
Fixpoint mentions (c : ascii) (s : string) : bool :=
  match s with
  | EmptyString => false
  | String c' rest => Ascii.eqb c' c || mentions c rest
  end.

(** * Properties *)

(** ** Loops as folds *)

(** With [hi - i] units of fuel the counting loop runs to completion: it
    is the fold of its body over [i, i+1, ..., hi-1]. *)
Lemma for_loop_always {S : Type} (body : Z → S → S) fuel i hi (s : S) :
  (Z.to_nat (hi - i) ≤ fuel)%nat →
  for_loop fuel i hi always body s
  = foldl (fun s j => body j s) s (seqZ i (hi - i)).
Proof.
  revert i s. induction fuel as [|fuel IH]; intros i s Hfuel; simpl.
  - rewrite seqZ_nil by lia. done.
  - destruct (Z.ltb_spec i hi) as [Hlt|Hge]; simpl.
    + rewrite seqZ_cons by lia. simpl.
      rewrite IH by lia. do 2 f_equal; lia.
    + rewrite seqZ_nil by lia. done.
Qed.

Lemma for_range_foldl {S : Type} (body : Z → S → S) lo hi (s : S) :
  for_range lo hi always body s
  = foldl (fun s j => body j s) s (seqZ lo (hi - lo)).
Proof. unfold for_range. by apply for_loop_always. Qed.

Lemma elem_of_rect_coords x y width height px py :
  (px, py) ∈ rect_coords x y width height
  ↔ x ≤ px < x + width ∧ y ≤ py < y + height.
Proof.
  unfold rect_coords. rewrite list_elem_of_bind. split.
  - intros (qx & Hin & Hqx). apply list_elem_of_fmap in Hin as (qy & Heq & Hqy).
    apply elem_of_seqZ in Hqx, Hqy. by simplify_eq.
  - intros [Hx Hy]. exists px. split; [|by apply elem_of_seqZ].
    apply list_elem_of_fmap. exists py. split; [done|by apply elem_of_seqZ].
Qed.

Lemma NoDup_rect_coords x y width height :
  NoDup (rect_coords x y width height).
Proof.
  unfold rect_coords. apply NoDup_bind.
  - intros x1 x2 k _ _ H1 H2.
    apply list_elem_of_fmap in H1 as (? & -> & _).
    apply list_elem_of_fmap in H2 as (? & ? & _). by simplify_eq.
  - intros px _. apply NoDup_fmap_2; [|apply NoDup_seqZ].
    intros ???; by simplify_eq.
  - apply NoDup_seqZ.
Qed.


(** ** Painting a rectangle *)

Section painting.
Variable env : AdEnv.
Variable who : json.

Lemma paint_rect_paint_list x y width height s :
  paint_rect env who x y width height s
  = paint_list env who (rect_coords x y width height) s.
Proof.
  unfold paint_rect, paint_list, rect_coords.
  rewrite for_range_foldl. replace (x + width - x) with width by lia.
  revert s. induction (seqZ x width) as [|px pxs IH]; intros s; csimpl; [done|].
  rewrite foldl_app, <- IH. f_equal.
  rewrite for_range_foldl. replace (y + height - y) with height by lia.
  generalize (seqZ y height) as pys. clear. intros pys. revert s.
  induction pys as [|py pys IH]; intros s; csimpl; [done|]. by rewrite IH.
Qed.

Lemma paint_list_lookup ks s k :
  (paint_list env who ks s).1 !! k
  = if decide (k ∈ ks) then Some (ad_cell env who k) else s.1 !! k.
Proof.
  revert s. induction ks as [|a ks IH]; intros s.
  - rewrite decide_False; [done|]. by apply not_elem_of_nil.
  - change (paint_list env who (a :: ks) s)
      with (paint_list env who ks (paint_ad_cell env who a.1 a.2 s)).
    rewrite IH. unfold paint_ad_cell; cbn [fst snd].
    destruct (decide (k ∈ ks)) as [Hin|Hnin].
    + rewrite decide_True; [done|]. by right.
    + destruct (decide (a = k)) as [->|Hne].
      * rewrite decide_True; [|by left].
        destruct k; cbn [fst snd]. by rewrite lookup_insert_eq.
      * rewrite decide_False; [|by intros [?|?]%elem_of_cons].
        destruct a; cbn [fst snd]. by rewrite lookup_insert_ne.
Qed.

Lemma count_fresh_cons m a ks :
  count_fresh m (a :: ks)
  = (if decide (fresh_in m a) then 1 else 0) + count_fresh m ks.
Proof.
  unfold count_fresh. rewrite filter_cons.
  destruct (decide (fresh_in m a)); simpl; lia.
Qed.

Lemma count_fresh_insert m a v ks :
  a ∉ ks → count_fresh (<[a := v]> m) ks = count_fresh m ks.
Proof.
  induction ks as [|b ks IH]; intros Hnin; [done|].
  rewrite !count_fresh_cons, IH by set_solver.
  assert (Hne : a ≠ b) by set_solver.
  assert (Hiff : fresh_in (<[a := v]> m) b ↔ fresh_in m b).
  { unfold fresh_in. by rewrite lookup_insert_ne. }
  do 2 case_decide; tauto || lia.
Qed.


(** [newPixels] counts the coordinates that were unpainted before the
    loops started, and the canvas grows by as many entries. *)
Lemma paint_list_count ks s :
  NoDup ks →
  (paint_list env who ks s).2 = s.2 + count_fresh s.1 ks
  ∧ Z.of_nat (size (paint_list env who ks s).1)
    = Z.of_nat (size s.1) + count_fresh s.1 ks.
Proof.
  intros Hnd. revert s. induction Hnd as [|a ks Hnin Hnd IH]; intros s.
  - unfold paint_list, count_fresh; simpl. lia.
  - change (paint_list env who (a :: ks) s)
      with (paint_list env who ks (paint_ad_cell env who a.1 a.2 s)).
    destruct (IH (paint_ad_cell env who a.1 a.2 s)) as [-> ->].
    rewrite count_fresh_cons.
    unfold paint_ad_cell; cbn [fst snd]. destruct a as [px py]; cbn [fst snd].
    rewrite count_fresh_insert by done.
    rewrite map_size_insert.
    destruct (decide (fresh_in s.1 (px, py))) as [Hk|Hk]; unfold fresh_in in Hk.
    + rewrite Hk. rewrite bool_decide_eq_false_2 by (by intros [? ?]).
      simpl. lia.
    + destruct (s.1 !! (px, py)) as [v|] eqn:Hv; [|done].
      rewrite bool_decide_eq_true_2 by eauto. simpl. lia.
Qed.
End painting.

(** ** The validation of [POST /ad] *)

(** Unfold one [reject ... when ...] statement by cases on its test. *)
Ltac step_reject :=
  match goal with
  | |- context [reject_if ?b ?e] =>
    let Hb := fresh "Hb" in
    destruct b eqn:Hb; cbn [reject_if bind]
  | H : context [reject_if ?b ?e] |- _ =>
    let Hb := fresh "Hb" in
    destruct b eqn:Hb; cbn [reject_if bind] in H
  end.

Lemma missing_string_false v :
  missing_string v = false ↔ ∃ s, v = JStr s ∧ s ≠ ""%string.
Proof.
  unfold missing_string. split.
  - destruct v as [| |b|n|s|]; simpl; try (by destruct b); try (by destruct (n =? 0));
      try done.
    destruct (String.eqb_spec s ""); simpl; [done|]. eauto.
  - intros (s & -> & Hs). simpl.
    destruct (String.eqb_spec s ""); simpl; done.
Qed.

Lemma rem10_mod10 n : 0 ≤ n → (Z.rem n 10 =? 0) = (n mod 10 =? 0).
Proof. intros Hn. by rewrite Z.rem_mod_nonneg by lia. Qed.

(** Turn the boolean tests of the handlers into propositions. *)
Ltac tests_to_props :=
  repeat match goal with
         | H : _ || _ = false |- _ => apply orb_false_iff in H as [? ?]
         | H : _ || _ = true |- _ => apply orb_true_iff in H as [?|?]
         | H : _ && _ = true |- _ => apply andb_true_iff in H as [? ?]
         | H : _ && _ = false |- _ => apply andb_false_iff in H as [?|?]
         | H : negb _ = false |- _ => apply negb_false_iff in H
         | H : negb _ = true |- _ => apply negb_true_iff in H
         | H : (_ <? _) = false |- _ => apply Z.ltb_ge in H
         | H : (_ <? _) = true |- _ => apply Z.ltb_lt in H
         | H : (_ <=? _) = false |- _ => apply Z.leb_gt in H
         | H : (_ <=? _) = true |- _ => apply Z.leb_le in H
         | H : (_ >? _) = _ |- _ => rewrite Z.gtb_ltb in H
         | H : (_ >=? _) = _ |- _ => rewrite Z.geb_leb in H
         | H : (_ =? _) = true |- _ => apply Z.eqb_eq in H
         | H : (_ =? _) = false |- _ => apply Z.eqb_neq in H
         | H : bool_decide _ = true |- _ => apply bool_decide_eq_true in H
         | H : bool_decide _ = false |- _ => apply bool_decide_eq_false in H
         end.

Lemma ad_checks_ok body st a :
  ad_checks body st = Ok a ↔ ad_valid body st a.
Proof.
  split.
  - unfold ad_checks. intros H.
    destruct (ab_x body) as [| | |x| |] eqn:Hx; try discriminate.
    destruct (ab_y body) as [| | |y| |] eqn:Hy; try discriminate.
    destruct (ab_width body) as [| | |width| |] eqn:Hw; try discriminate.
    destruct (ab_height body) as [| | |height| |] eqn:Hh; try discriminate.
    repeat (step_reject; [discriminate|]).
    injection H as <-. cbn [aa_x aa_y aa_width aa_height aa_imageId aa_linkUrl aa_title].
    repeat match goal with
           | H : missing_string _ = false |- _ =>
             let s := fresh "s" in
             let Hs := fresh "Hs" in
             let Hne := fresh "Hne" in
             apply missing_string_false in H as (s & Hs & Hne); rewrite Hs in *
           end.
    unfold has_image, CANVAS_WIDTH, CANVAS_HEIGHT in *. cbn [as_string] in *.
    tests_to_props.
    split; cbn [aa_x aa_y aa_width aa_height aa_imageId aa_linkUrl aa_title];
      unfold CANVAS_WIDTH, CANVAS_HEIGHT;
      rewrite <- ?Z.rem_mod_nonneg by lia; try done; try lia.
  - intros [Hx Hy Hw Hh Hwr Hhr Hwa Hha Hin (Hi & Hi' & Himg) (Hl & Hl') (Ht & Ht')].
    unfold ad_checks. rewrite Hx, Hy, Hw, Hh.
    unfold CANVAS_WIDTH, CANVAS_HEIGHT in *.
    assert (Hm : ∀ s, s ≠ ""%string → missing_string (JStr s) = false).
    { intros s Hs. apply missing_string_false. eauto. }
    rewrite Hi, Hl, Ht, !Hm by done. cbn [as_string].
    rewrite <- Z.rem_mod_nonneg in Hwa, Hha by lia.
    unfold has_image.
    repeat (step_reject; [exfalso; tests_to_props; try lia; done|]).
    destruct a; simpl in *. done.
Qed.

(** *** The order of the validation *)

Lemma post_ad_failure env body st :
  failure_of (post_ad env body st).1 = failure_of (ad_checks body st).
Proof. unfold post_ad. by destruct (ad_checks body st). Qed.

Lemma missing_string_nonempty v : missing_string v = negb (nonempty_string v).
Proof.
  unfold missing_string, nonempty_string.
  destruct v as [| |b|n|s|]; simpl; try done.
  - by destruct b.
  - by destruct (n =? 0).
  - by destruct (String.eqb s ""); simpl.
Qed.

Lemma ad_checks_first_failure body st :
  failure_of (ad_checks body st) = first_failure (ad_stages body st).
Proof.
  unfold ad_checks, ad_stages, numeric_dims, big_enough, aligned, small_enough,
    inside_grid, image_resolves, texts_present, has_image,
    CANVAS_WIDTH, CANVAS_HEIGHT.
  destruct (ab_x body) as [| | |x| |]; simpl; try done.
  destruct (ab_y body) as [| | |y| |]; simpl; try done.
  destruct (ab_width body) as [| | |width| |]; simpl; try done.
  destruct (ab_height body) as [| | |height| |]; simpl; try done.
  rewrite !missing_string_nonempty.
  destruct (Z.leb_spec 10 width), (Z.leb_spec 10 height); simpl;
    step_reject; tests_to_props; try lia; try done.
  rewrite !Z.rem_mod_nonneg by lia.
  destruct (Z.eqb_spec (width mod 10) 0), (Z.eqb_spec (height mod 10) 0);
    simpl; try done.
  destruct (Z.leb_spec width 100), (Z.leb_spec height 100); simpl;
    step_reject; tests_to_props; try lia; try done.
  destruct (Z.leb_spec 0 x), (Z.leb_spec 0 y), (Z.leb_spec (x + width) 1000),
    (Z.leb_spec (y + height) 1000); simpl;
    step_reject; tests_to_props; try lia; try done.
  destruct (ab_imageId body) as [| |b|n|s|]; simpl; try done.
  destruct (String.eqb s ""); simpl; [done|].
  destruct (bool_decide (is_Some (generatedImages st !! s))); simpl; [|done].
  destruct (nonempty_string (ab_linkUrl body)); simpl; [|done].
  destruct (nonempty_string (ab_title body)); simpl; done.
Qed.

(** ** The effect of one request on the store *)

Lemma post_ad_cases env body st :
  (∃ e, ad_checks body st = Err e ∧ post_ad env body st = (Err e, st))
  ∨ (∃ a reply st',
        ad_checks body st = Ok a ∧ ad_valid body st a
        ∧ post_ad env body st = (Ok reply, st')
        ∧ canvas st'
          = (paint_list env (ab_owner body)
               (rect_coords (aa_x a) (aa_y a) (aa_width a) (aa_height a))
               (canvas st, 0)).1
        ∧ ar_newPixels reply
          = count_fresh (canvas st)
              (rect_coords (aa_x a) (aa_y a) (aa_width a) (aa_height a))
        ∧ totalPixelsSold st' = totalPixelsSold st + ar_newPixels reply
        ∧ totalRevenue st'
          = (totalRevenue st + inject_Z (ar_newPixels reply) * PIXEL_PRICE)%Q
        ∧ adPlacements st' = adPlacements st ++ [ar_placement reply]
        ∧ generatedImages st' = generatedImages st
        ∧ ar_placement reply
          = {| ad_id := env_adId env;
               ad_owner := js_or (ab_owner body) (JStr "anonymous");
               ad_x := aa_x a; ad_y := aa_y a;
               ad_width := aa_width a; ad_height := aa_height a;
               ad_pixels := aa_width a * aa_height a;
               ad_totalCost := (inject_Z (aa_width a * aa_height a) * PIXEL_PRICE)%Q;
               ad_imageId := aa_imageId a;
               ad_imageUrl := image_url (env_port env) (aa_imageId a);
               ad_linkUrl := aa_linkUrl a;
               ad_title := aa_title a;
               ad_timestamp := env_now env |}).
Proof.
  unfold post_ad. destruct (ad_checks body st) as [a|e] eqn:Hchecks.
  - right. eexists a, _, _. split; [done|].
    split; [by apply ad_checks_ok|]. split; [done|]. cbn.
    rewrite paint_rect_paint_list.
    destruct (paint_list_count env (ab_owner body)
                (rect_coords (aa_x a) (aa_y a) (aa_width a) (aa_height a))
                (canvas st, 0) (NoDup_rect_coords _ _ _ _)) as [Hn _].
    cbn [fst snd] in Hn. rewrite Hn, Z.add_0_l. done.
  - left. eauto.
Qed.

Lemma post_pixel_cases now body st :
  (∃ e, post_pixel now body st = (Err e, st))
  ∨ (∃ x y c reply st',
        pb_x body = JNum x ∧ pb_y body = JNum y ∧ pb_color body = JStr c
        ∧ 0 ≤ x < CANVAS_WIDTH ∧ 0 ≤ y < CANVAS_HEIGHT
        ∧ color_re_test c = true
        ∧ post_pixel now body st = (Ok reply, st')
        ∧ canvas st'
          = <[(x, y) := {| color := toUpperCase c;
                           owner := js_or (pb_owner body) (JStr "anonymous");
                           url := pb_url body;
                           adId := None;
                           timestamp := now |}]> (canvas st)
        ∧ pr_color reply = toUpperCase c
        ∧ pr_owner reply = js_or (pb_owner body) (JStr "anonymous")
        ∧ totalPixelsSold st'
          = totalPixelsSold st + count_fresh (canvas st) [(x, y)]
        ∧ pr_totalPixelsSold reply = totalPixelsSold st'
        ∧ totalRevenue st'
          = (if decide (fresh_in (canvas st) (x, y))
             then totalRevenue st + PIXEL_PRICE else totalRevenue st)%Q
        ∧ adPlacements st' = adPlacements st
        ∧ generatedImages st' = generatedImages st).
Proof.
  unfold post_pixel.
  destruct (pb_x body) as [| | |x| |]; try (left; eauto; fail).
  destruct (pb_y body) as [| | |y| |]; try (left; eauto; fail).
  destruct ((x <? 0) || (x >=? CANVAS_WIDTH) || (y <? 0) || (y >=? CANVAS_HEIGHT))
    eqn:Hrange; [left; eauto|].
  destruct (pb_color body) as [| | | |c|]; try (left; eauto; fail).
  destruct (color_re_test c) eqn:Hc; simpl; [|left; eauto].
  right. eexists x, y, c, _, _.
  unfold CANVAS_WIDTH, CANVAS_HEIGHT in *. tests_to_props.
  repeat split; try done; try lia; cbn.
  - rewrite count_fresh_cons. unfold count_fresh; simpl.
    destruct (decide (fresh_in (canvas st) (x, y))) as [Hf|Hf]; unfold fresh_in in Hf.
    + rewrite bool_decide_eq_false_2; [simpl; lia|]. rewrite Hf. by intros [? ?].
    + rewrite bool_decide_eq_true_2; [simpl; lia|].
      by destruct (canvas st !! (x, y)); eauto.
  - destruct (decide (fresh_in (canvas st) (x, y))) as [Hf|Hf]; unfold fresh_in in Hf.
    + rewrite bool_decide_eq_false_2; [done|]. rewrite Hf. by intros [? ?].
    + rewrite bool_decide_eq_true_2; [done|].
      by destruct (canvas st !! (x, y)); eauto.
Qed.

Lemma post_generate_image_cases env body st :
  (∃ e, post_generate_image env body st = (Err e, st))
  ∨ (∃ reply st' bytes,
        post_generate_image env body st = (Ok reply, st')
        ∧ canvas st' = canvas st
        ∧ adPlacements st' = adPlacements st
        ∧ generatedImages st'
          = <[gen_imageId env := {| data := bytes; contentType := "image/png" |}]>
              (generatedImages st)
        ∧ totalRevenue st' = totalRevenue st
        ∧ totalPixelsSold st' = totalPixelsSold st).
Proof.
  unfold post_generate_image.
  destruct (gen_checks body) as [[width height]|e]; [|left; eauto].
  destruct (gen_image env) as [bytes|]; [|left; eauto].
  right. eexists _, _, bytes. done.
Qed.

(** A rejected request leaves the store as it was. *)
Lemma handle_rejected r st : accepted r st = false → handle r st = st.
Proof.
  destruct r as [now body|env body|env body|]; simpl; [| | |done].
  - destruct (post_pixel_cases now body st) as [[e ->]|(?&?&?&?&?&H)];
      [done|]. destruct H as (_&_&_&_&_&_&->&_). done.
  - destruct (post_ad_cases env body st) as [(e&_&->)|(?&?&?&_&_&->&_)]; done.
  - destruct (post_generate_image_cases env body st) as [[e ->]|(?&?&?&->&_)]; done.
Qed.





Lemma run_cons r rs st : run (r :: rs) st = run rs (handle r st).
Proof. done. Qed.





(** ** The ledger and the image store only grow *)

Lemma handle_ledger r st :
  adPlacements st `prefix_of` adPlacements (handle r st).
Proof.
  destruct r as [now body|env body|env body|]; simpl; [| | |done].
  - destruct (post_pixel_cases now body st) as [[e ->]|(?&?&?&?&?&H)]; [done|].
    destruct H as (_&_&_&_&_&_&->&_&_&_&_&_&_&Hl&_). simpl. by rewrite Hl.
  - destruct (post_ad_cases env body st)
      as [(e&_&->)|(a&reply&st'&_&_&->&_&_&_&_&Hl&_)]; [done|].
    simpl. rewrite Hl. by apply prefix_app_r.
  - destruct (post_generate_image_cases env body st)
      as [[e ->]|(?&?&?&->&_&Hl&_)]; [done|]. simpl. by rewrite Hl.
Qed.

Lemma run_ledger rs st :
  adPlacements st `prefix_of` adPlacements (run rs st).
Proof.
  revert st. induction rs as [|r rs IH]; intros st; [done|].
  rewrite run_cons. etrans; [apply handle_ledger|apply IH].
Qed.

Lemma handle_images r st id :
  is_Some (generatedImages st !! id) →
  is_Some (generatedImages (handle r st) !! id).
Proof.
  intros Hid.
  destruct r as [now body|env body|env body|]; simpl; [| | |done].
  - destruct (post_pixel_cases now body st) as [[e ->]|(?&?&?&?&?&H)]; [done|].
    destruct H as (_&_&_&_&_&_&->&_&_&_&_&_&_&_&Hi). simpl. by rewrite Hi.
  - destruct (post_ad_cases env body st)
      as [(e&_&->)|(a&reply&st'&_&_&->&_&_&_&_&_&Hi&_)]; [done|].
    simpl. by rewrite Hi.
  - destruct (post_generate_image_cases env body st)
      as [[e ->]|(?&?&?&->&_&_&Hi&_)]; [done|]. simpl. rewrite Hi.
    destruct (decide (gen_imageId env = id)) as [->|Hne].
    + rewrite lookup_insert_eq. eauto.
    + by rewrite lookup_insert_ne.
Qed.

Lemma run_images rs st id :
  is_Some (generatedImages st !! id) →
  is_Some (generatedImages (run rs st) !! id).
Proof.
  revert st. induction rs as [|r rs IH]; intros st Hid; [done|].
  rewrite run_cons. by apply IH, handle_images.
Qed.

Lemma get_image_is_ok id st :
  is_ok (get_image id st) = true ↔ is_Some (generatedImages st !! id).
Proof.
  unfold get_image. destruct (generatedImages st !! id); simpl.
  - split; eauto.
  - split; [done|]. by intros [? ?].
Qed.

(** The validation of a placement reads the store only through the image
    store: once accepted, a body stays acceptable. *)
Lemma ad_checks_stable body st st' a :
  (∀ id, is_Some (generatedImages st !! id) → is_Some (generatedImages st' !! id)) →
  ad_checks body st = Ok a → ad_checks body st' = Ok a.
Proof.
  intros Himg Hok. apply ad_checks_ok in Hok. apply ad_checks_ok.
  destruct Hok as [? ? ? ? ? ? ? ? ? (Hid & Hne & Hsome) ? ?].
  split; try done. split; [done|]. split; [done|]. by apply Himg.
Qed.

Lemma post_ad_is_ok env body st :
  is_ok (post_ad env body st).1 = is_ok (ad_checks body st).
Proof. unfold post_ad. by destruct (ad_checks body st). Qed.

(** ** Runs in which every request is accepted *)



(** ** The empty-space search *)

(** A loop whose state is a flag that its body can only clear computes a
    conjunction. *)
Lemma for_loop_flag (body : Z → bool → bool) (g : Z → bool) fuel i hi b :
  (∀ j e, body j e = e && g j) →
  (Z.to_nat (hi - i) ≤ fuel)%nat →
  for_loop fuel i hi id body b = b && forallb g (seqZ i (hi - i)).
Proof.
  intros Hbody. revert i b. induction fuel as [|fuel IH]; intros i b Hfuel; simpl.
  - rewrite seqZ_nil by lia. simpl. by rewrite andb_true_r.
  - destruct (Z.ltb_spec i hi) as [Hlt|Hge]; simpl.
    + destruct b; simpl; [|done].
      rewrite seqZ_cons by lia. simpl. rewrite IH, Hbody by lia. simpl.
      do 3 f_equal; lia.
    + rewrite seqZ_nil by lia. simpl. by rewrite andb_true_r.
Qed.

Lemma for_range_flag (body : Z → bool → bool) (g : Z → bool) lo hi b :
  (∀ j e, body j e = e && g j) →
  for_range lo hi id body b = b && forallb g (seqZ lo (hi - lo)).
Proof. intros Hbody. unfold for_range. by apply for_loop_flag. Qed.

Lemma rect_is_empty_spec occupied cx cy width height :
  rect_is_empty occupied cx cy width height = true
  ↔ ∀ px py, cx ≤ px < cx + width → cy ≤ py < cy + height → (px, py) ∉ occupied.
Proof.
  unfold rect_is_empty.
  rewrite (for_range_flag _
    (fun px => forallb (fun py => negb (bool_decide ((px, py) ∈ occupied)))
                       (seqZ cy height))).
  2:{ intros px e.
      rewrite (for_range_flag _ (fun py => negb (bool_decide ((px, py) ∈ occupied)))).
      - by replace (cy + height - cy) with height by lia.
      - intros py e'. destruct (bool_decide ((px, py) ∈ occupied)), e'; done. }
  replace (cx + width - cx) with width by lia. simpl.
  rewrite forallb_forall. split.
  - intros H px py Hpx Hpy.
    assert (Hin : In px (seqZ cx width)).
    { apply list_elem_of_In, elem_of_seqZ. lia. }
    specialize (H px Hin). rewrite forallb_forall in H.
    assert (Hin' : In py (seqZ cy height)).
    { apply list_elem_of_In, elem_of_seqZ. lia. }
    specialize (H py Hin'). apply negb_true_iff, bool_decide_eq_false in H. done.
  - intros H px Hpx%list_elem_of_In%elem_of_seqZ.
    apply forallb_forall. intros py Hpy%list_elem_of_In%elem_of_seqZ.
    apply negb_true_iff, bool_decide_eq_false. apply H; lia.
Qed.

(** Whatever is found was a candidate, passed the bounds tests, and is
    vacant. *)
Lemma check_candidates_found occupied width height candidates x y w h :
  check_candidates occupied width height candidates = Found x y w h →
  w = width ∧ h = height ∧ (x, y) ∈ candidates
  ∧ 0 ≤ x ∧ 0 ≤ y ∧ x + width ≤ 1000 ∧ y + height ≤ 1000
  ∧ rect_is_empty occupied x y width height = true.
Proof.
  induction candidates as [|[cx cy] rest IH]; simpl; [done|].
  destruct ((cx <? 0) || (cy <? 0)) eqn:Hneg.
  { intros H. destruct (IH H) as (?&?&?&?&?&?&?&?). split_and!; try done. by right. }
  destruct ((cx + width >? 1000) || (cy + height >? 1000)) eqn:Hout.
  { intros H. destruct (IH H) as (?&?&?&?&?&?&?&?). split_and!; try done. by right. }
  destruct (rect_is_empty occupied cx cy width height) eqn:Hempty.
  - intros [= <- <- <- <-]. tests_to_props.
    split_and!; try done; try lia. by left.
  - intros H. destruct (IH H) as (?&?&?&?&?&?&?&?). split_and!; try done. by right.
Qed.

(** The first candidate is returned when it passes every test. *)
Lemma check_candidates_head occupied width height cx cy rest :
  0 ≤ cx → 0 ≤ cy → cx + width ≤ 1000 → cy + height ≤ 1000 →
  rect_is_empty occupied cx cy width height = true →
  check_candidates occupied width height ((cx, cy) :: rest)
  = Found cx cy width height.
Proof.
  intros Hx Hy Hw Hh Hempty. simpl. rewrite Hempty.
  destruct (Z.ltb_spec cx 0), (Z.ltb_spec cy 0); try lia. simpl.
  rewrite !Z.gtb_ltb.
  destruct (Z.ltb_spec 1000 (cx + width)), (Z.ltb_spec 1000 (cy + height));
    try lia. done.
Qed.

(** [Math.floor(Math.random() * n)] lies in [[0, n)] for a positive [n]. *)
Lemma random_floor_range r n :
  (0 <= r)%Q → (r < 1)%Q → 0 < n → 0 ≤ random_floor r n < n.
Proof.
  intros Hr0 Hr1 Hn. unfold random_floor.
  assert (Hn' : (0 < inject_Z n)%Q).
  { replace 0%Q with (inject_Z 0) by done. by rewrite <- Zlt_Qlt. }
  split.
  - replace 0 with (Qfloor (inject_Z 0)) by apply Qfloor_Z.
    apply Qfloor_resp_le. simpl. apply Qmult_le_0_compat; [done|]. by apply Qlt_le_weak.
  - rewrite Zlt_Qlt. eapply Qle_lt_trans; [apply Qfloor_le|].
    rewrite <- (Qmult_1_l (inject_Z n)) at 2.
    apply Qmult_lt_compat_r; done.
Qed.

Lemma snap10_range v :
  0 ≤ v < 990 → snap10 v mod 10 = 0 ∧ 0 ≤ snap10 v ∧ snap10 v + 10 ≤ 1000.
Proof.
  intros Hv. unfold snap10. split; [by rewrite Z.mod_mul|].
  pose proof (Z.mul_div_le v 10). pose proof (Z.div_pos v 10). lia.
Qed.

Lemma push_candidates_spec (P : Z * Z → Prop) rnd width height count k acc :
  (∀ i j, P (random_floor (rnd i) (1000 - width),
             random_floor (rnd j) (1000 - height))) →
  Forall P acc →
  Forall P (push_candidates count rnd k width height acc).1
  ∧ length (push_candidates count rnd k width height acc).1
    = (length acc + count)%nat.
Proof.
  intros HP. revert k acc. induction count as [|count IH]; intros k acc Hacc; simpl.
  - split; [done|lia].
  - destruct (IH (S (S k)) (acc ++ [(random_floor (rnd k) (1000 - width),
                                     random_floor (rnd (S k)) (1000 - height))]))
      as [HF Hlen].
    + apply Forall_app. split; [done|]. by constructor.
    + split; [done|]. rewrite Hlen, length_app. simpl. lia.
Qed.

Lemma swap_spec (P : Z * Z → Prop) a i j :
  Forall P a → Forall P (swap a i j) ∧ length (swap a i j) = length a.
Proof.
  intros Ha. unfold swap.
  destruct (a !! i) as [ci|] eqn:Hi; [|done].
  destruct (a !! j) as [cj|] eqn:Hj; [|done].
  rewrite !length_insert. split; [|done].
  apply Forall_insert; [apply Forall_insert; [done|]|].
  - eapply Forall_lookup_1; eauto.
  - eapply Forall_lookup_1; eauto.
Qed.

Lemma shuffle_from_spec (P : Z * Z → Prop) rnd i k a :
  Forall P a →
  Forall P (shuffle_from i rnd k a) ∧ length (shuffle_from i rnd k a) = length a.
Proof.
  revert k a. induction i as [|i IH]; intros k a Ha; [done|].
  cbn [shuffle_from].
  destruct (swap_spec P a (S i)
              (Z.to_nat (random_floor (rnd k) (Z.of_nat (S i) + 1))) Ha)
    as [HF Hlen].
  destruct (IH (S k) _ HF) as [HF' Hlen']. split; [done|]. by rewrite Hlen', Hlen.
Qed.

Lemma findEmptySpace_found rnd pixels width height x y w h :
  findEmptySpace rnd pixels width height = Found x y w h →
  w = width ∧ h = height
  ∧ 0 ≤ x ∧ 0 ≤ y ∧ x + width ≤ 1000 ∧ y + height ≤ 1000
  ∧ ∀ px py, x ≤ px < x + width → y ≤ py < y + height → (px, py) ∉ pixels.
Proof.
  unfold findEmptySpace.
  destruct (push_candidates 100 rnd 0 width height []) as [candidates k].
  intros (-> & -> & _ & Hx & Hy & Hw & Hh & Hempty)%check_candidates_found.
  split_and!; try done.
  intros px py Hpx Hpy Hin.
  rewrite rect_is_empty_spec in Hempty.
  apply (Hempty px py Hpx Hpy). by apply elem_of_list_to_set.
Qed.

Lemma snap10_candidate width height cx cy :
  0 ≤ cx < 1000 - width → 0 ≤ cy < 1000 - height →
  grid_candidate width height (snap10 cx, snap10 cy).
Proof.
  intros Hx Hy. unfold grid_candidate, snap10; simpl.
  rewrite !Z.mod_mul by done.
  pose proof (Z.mul_div_le cx 10). pose proof (Z.div_pos cx 10).
  pose proof (Z.mul_div_le cy 10). pose proof (Z.div_pos cy 10). lia.
Qed.

(** On an empty snapshot the search succeeds, whatever the random choices. *)
Lemma findEmptySpace_empty rnd width height :
  random_source rnd → 0 < width < 1000 → 0 < height < 1000 →
  ∃ x y, findEmptySpace rnd [] width height = Found x y width height
         ∧ grid_candidate width height (x, y).
Proof.
  intros Hrnd Hw Hh. unfold findEmptySpace.
  destruct (push_candidates 100 rnd 0 width height []) as [candidates k] eqn:Hpush.
  destruct (push_candidates_spec
              (fun c => 0 ≤ c.1 < 1000 - width ∧ 0 ≤ c.2 < 1000 - height)
              rnd width height 100 0 []) as [Hrange Hlen]; [|done|].
  { intros i j. destruct (Hrnd i), (Hrnd j). simpl.
    split; apply random_floor_range; try done; lia. }
  rewrite Hpush in Hrange, Hlen. simpl in Hrange, Hlen.
  assert (Hsnap : Forall (grid_candidate width height) (snap_candidates candidates)).
  { unfold snap_candidates. apply Forall_forall. intros c Hc.
    apply list_elem_of_In, in_map_iff in Hc as (c0 & <- & Hc0).
    apply list_elem_of_In in Hc0. rewrite Forall_forall in Hrange.
    destruct (Hrange c0 Hc0). by apply snap10_candidate. }
  unfold shuffle.
  destruct (shuffle_from_spec (grid_candidate width height) rnd
              (length (snap_candidates candidates) - 1) k _ Hsnap) as [Hshuf Hlen'].
  destruct (shuffle_from _ rnd k (snap_candidates candidates)) as [|[cx cy] rest].
  { unfold snap_candidates in Hlen'. rewrite length_map, Hlen in Hlen'. done. }
  apply Forall_cons in Hshuf as [Hc _].
  exists cx, cy. split; [|done].
  destruct Hc as (_ & _ & ? & ? & ? & ?). simpl in *.
  apply check_candidates_head; try done.
  apply rect_is_empty_spec. intros px py _ _. set_solver.
Qed.

(** ** Colours *)

(** The pattern accepts exactly the strings made of [#] and six
    hexadecimal digits. *)
Lemma hex_digits_spec k s :
  hex_digits k s = true
  ↔ String.length s = k
    ∧ Forall (fun c => is_hex_digit c = true) (list_ascii_of_string s).
Proof.
  revert s. induction k as [|k IH]; intros [|c s]; simpl.
  - split; [by split|done].
  - split; [done|]. by intros [? _].
  - split; [done|]. by intros [? _].
  - rewrite andb_true_iff, IH, Forall_cons. split.
    + intros (Hc & Hlen & Hs). by rewrite Hlen.
    + intros ([= Hlen] & Hc & Hs). done.
Qed.

Lemma color_re_test_spec s :
  color_re_test s = true
  ↔ ∃ digits, s = String "#" digits ∧ String.length digits = 6%nat
              ∧ Forall (fun c => is_hex_digit c = true)
                       (list_ascii_of_string digits).
Proof.
  destruct s as [|c rest]; unfold color_re_test.
  - split; [done|]. by intros (? & ? & _).
  - rewrite andb_true_iff. rewrite (hex_digits_spec 6 rest). split.
    + intros [->%Ascii.eqb_eq [? ?]]. by exists rest.
    + intros (digits & [= -> ->] & ? & ?). split; [apply Ascii.eqb_refl|done].
Qed.

Example color_re_examples :
  color_re_test "#FF0000" = true ∧ color_re_test "#00ff7a" = true
  ∧ color_re_test "FF0000" = false ∧ color_re_test "#FF000" = false
  ∧ color_re_test "#FF00000" = false ∧ color_re_test "#GG0000" = false
  ∧ color_re_test "red" = false.
Proof. vm_compute. done. Qed.

Lemma upper_ascii_hex c :
  is_hex_digit c = true → is_upper_hex_digit (upper_ascii c) = true.
Proof.
  destruct c as [b0 b1 b2 b3 b4 b5 b6 b7].
  destruct b0, b1, b2, b3, b4, b5, b6, b7; vm_compute; congruence.
Qed.

Lemma toUpperCase_hex k s :
  hex_digits k s = true → upper_hex_digits k (toUpperCase s) = true.
Proof.
  revert s. induction k as [|k IH]; intros [|c s]; simpl; try done.
  intros [Hc Hs]%andb_true_iff. by rewrite upper_ascii_hex, IH.
Qed.

Lemma toUpperCase_color c :
  color_re_test c = true → upper_color (toUpperCase c) = true.
Proof.
  destruct c as [|ch rest]; [done|]. unfold color_re_test, upper_color.
  cbn [toUpperCase]. intros [Hsharp Hrest]%andb_true_iff.
  apply Ascii.eqb_eq in Hsharp as ->.
  by rewrite toUpperCase_hex.
Qed.

(** ** The validation of [POST /pixel] *)

Lemma post_pixel_first_failure now body st :
  failure_of (post_pixel now body st).1 = first_failure (pixel_stages body).
Proof.
  unfold post_pixel, pixel_stages, numeric_xy, in_range, color_matches,
    CANVAS_WIDTH, CANVAS_HEIGHT.
  destruct (pb_x body) as [| | |x| |]; simpl; try done.
  destruct (pb_y body) as [| | |y| |]; simpl; try done.
  rewrite !Z.geb_leb.
  destruct (Z.ltb_spec x 0), (Z.leb_spec 0 x); try lia;
    destruct (Z.leb_spec 1000 x), (Z.ltb_spec x 1000); try lia;
    destruct (Z.ltb_spec y 0), (Z.leb_spec 0 y); try lia;
    destruct (Z.leb_spec 1000 y), (Z.ltb_spec y 1000); try lia; simpl; try done.
  destruct (pb_color body) as [| | | |c|]; simpl; try done.
  by destruct (color_re_test c).
Qed.

Lemma post_pixel_rejected now body st :
  is_ok (post_pixel now body st).1 = false → (post_pixel now body st).2 = st.
Proof. apply (handle_rejected (PostPixel now body) st). Qed.

Lemma sample_rnd_source : random_source sample_rnd.
Proof.
  intros k. unfold sample_rnd, Qle, Qlt; simpl.
  pose proof (Z.mod_pos_bound (Z.of_nat k * 7919 + 13) 1000). lia.
Qed.

(** * The properties of the design document *)

(** ** Placement validation *)

(** The design document lets the maximum size be tested before the
    alignment; at width 105 the handler reports the misalignment, not the
    excess. *)
Lemma ad_validation_documented_order_fails :
  failure_of (post_ad env_1 (ad_at 0 0 105 20) gallery).1 = Some Misaligned
  ∧ first_failure (documented_ad_stages (ad_at 0 0 105 20) gallery) = Some TooLarge
  ∧ failure_of (post_ad env_1 (ad_at 0 0 105 20) gallery).1
    ≠ first_failure (documented_ad_stages (ad_at 0 0 105 20) gallery).
Proof. split_and!; [vm_compute; reflexivity..|vm_compute; discriminate]. Qed.

(** C1 (as amended).  A placement request is rejected with the failure of
    the first requirement it violates, in this order: numeric x, y, width
    and height ([InvalidInput]); width and height at least 10 ([TooSmall]);
    width and height multiples of 10 ([Misaligned]); width and height at
    most 100 ([TooLarge]); rectangle inside the grid ([OutOfBounds]); image
    handle resolving to a stored image ([UnknownImage]); non-empty link and
    title ([InvalidInput]).  In particular a request of width 105 (and
    numeric fields, sides of at least 10) is rejected with [Misaligned]. *)
Theorem ad_validation_order env body st :
  failure_of (post_ad env body st).1 = first_failure (ad_stages body st)
  ∧ (numeric_dims body = true → big_enough body = true →
     ab_width body = JNum 105 →
     failure_of (post_ad env body st).1 = Some Misaligned).
Proof.
  rewrite post_ad_failure, ad_checks_first_failure. split; [done|].
  intros Hnum Hbig Hw. unfold ad_stages, aligned. cbn [first_failure].
  rewrite Hnum, Hbig, Hw. done.
Qed.

Lemma ad_validation_order_witness :
  failure_of (post_ad env_1 (ad_at 990 990 105 20) gallery).1 = Some Misaligned.
Proof.
  apply (ad_validation_order env_1 (ad_at 990 990 105 20) gallery); reflexivity.
Defined.

(** ** Accepted placements *)



(** The example of the design document: 20x20 at (0,0) on an empty grid. *)
Example place_20x20 :
  ∃ reply st',
    post_ad env_1 (ad_at 0 0 20 20) gallery = (Ok reply, st')
    ∧ ad_pixels (ar_placement reply) = 400
    ∧ ad_totalCost (ar_placement reply) = (400 # 10000)%Q
    ∧ ar_newPixels reply = 400
    ∧ size (canvas st') = 400%nat
    ∧ adId <$> canvas st' !! (19, 19) = Some (Some "ad_1"%string).
Proof. eexists _, _. split; [reflexivity|]. vm_compute. done. Qed.

Example place_990_990 :
  failure_of (post_ad env_1 (ad_at 990 990 20 20) gallery).1 = Some OutOfBounds.
Proof. vm_compute. reflexivity. Qed.

(** ** Revenue *)



(** Two overlapping placements: the second one pays for its new pixels only. *)
Example overlapping_ads :
  let st1 := handle (PostAd env_1 (ad_at 0 0 20 20)) gallery in
  let st2 := handle (PostAd env_2 (ad_at 10 10 20 20)) st1 in
  new_pixels (PostAd env_2 (ad_at 10 10 20 20)) st1 = 300
  ∧ totalPixelsSold st2 = 700
  ∧ (totalRevenue st2 == 700 # 10000)%Q.
Proof. vm_compute. done. Qed.

(** ** Last write wins *)



(** The example of the design document. *)
Example repaint_5_5 :
  let st := run [PostPixel 1 (paint 5 5 "#FF0000" "A");
                 PostPixel 2 (paint 5 5 "#00FF00" "B")] empty_store in
  get_pixel (Some 5) (Some 5) st
  = Ok (QTaken 5 5 {| color := "#00FF00"; owner := JStr "B"; url := JUndefined;
                      adId := None; timestamp := 2 |})
  ∧ totalPixelsSold st = 1.
Proof. vm_compute. done. Qed.

(** ** Paint validation *)

(** A paint outside the grid with a colour that is no hex colour is
    rejected for its coordinates, not for its colour. *)
Lemma pixel_validation_documented_fails :
  failure_of (post_pixel 0 (paint 2000 0 "red" "A") empty_store).1
  = Some OutOfBounds
  ∧ color_matches (paint 2000 0 "red" "A") = false
  ∧ ¬ documented_pixel_failure (paint 2000 0 "red" "A")
        (failure_of (post_pixel 0 (paint 2000 0 "red" "A") empty_store).1).
Proof.
  split_and!; [reflexivity..|].
  intros [_ [_ Hcolor]]. specialize (Hcolor eq_refl). discriminate Hcolor.
Qed.

(** C5 (as amended).  A paint request is rejected with the failure of the
    first requirement it violates, in this order: numeric x and y
    ([InvalidInput]); x and y inside [[0, 1000)] ([OutOfBounds]); colour a
    string matching the 6-hex-digit pattern ([InvalidColor]).  So, with
    numeric coordinates, it fails with [OutOfBounds] exactly when a
    coordinate is outside the grid, and with [InvalidColor] exactly when
    the coordinates are inside the grid and the colour does not match.  A
    rejected request leaves the store as it was. *)
Theorem pixel_validation now body st :
  failure_of (post_pixel now body st).1 = first_failure (pixel_stages body)
  ∧ (numeric_xy body = true →
     (failure_of (post_pixel now body st).1 = Some OutOfBounds
      ↔ in_range body = false)
     ∧ (failure_of (post_pixel now body st).1 = Some InvalidColor
        ↔ in_range body = true ∧ color_matches body = false))
  ∧ (is_ok (post_pixel now body st).1 = false → (post_pixel now body st).2 = st).
Proof.
  split_and!.
  - apply post_pixel_first_failure.
  - intros Hnum. rewrite post_pixel_first_failure.
    unfold pixel_stages. cbn [first_failure]. rewrite Hnum.
    destruct (in_range body), (color_matches body); split; split;
      try done; intros [? ?]; done.
  - apply post_pixel_rejected.
Qed.

Lemma pixel_validation_witness :
  ((failure_of (post_pixel 0 (paint 5 1000 "#FF0000" "A") gallery).1
    = Some OutOfBounds
    ↔ in_range (paint 5 1000 "#FF0000" "A") = false)
   ∧ (failure_of (post_pixel 0 (paint 5 1000 "#FF0000" "A") gallery).1
      = Some InvalidColor
      ↔ in_range (paint 5 1000 "#FF0000" "A") = true
        ∧ color_matches (paint 5 1000 "#FF0000" "A") = false))
  ∧ (post_pixel 0 (paint 5 1000 "#FF0000" "A") gallery).2 = gallery.
Proof.
  split.
  - apply (pixel_validation 0 (paint 5 1000 "#FF0000" "A") gallery). reflexivity.
  - apply (pixel_validation 0 (paint 5 1000 "#FF0000" "A") gallery). reflexivity.
Defined.

(** ** Empty-space search *)

(** C6.  Whatever numbers in [[0, 1)] [Math.random()] returns,
    [findEmptySpace(10, 10)] on an empty snapshot finds a position, with x
    and y multiples of 10, [x + 10 <= 1000] and [y + 10 <= 1000]; and
    whenever [findEmptySpace(width, height)] finds a position, the
    rectangle lies inside the grid and none of its coordinates is in the
    snapshot. *)
Theorem findEmptySpace_correct rnd pixels width height :
  (random_source rnd →
   ∃ x y, findEmptySpace rnd [] 10 10 = Found x y 10 10
          ∧ x mod 10 = 0 ∧ y mod 10 = 0
          ∧ 0 ≤ x ∧ 0 ≤ y ∧ x + 10 ≤ 1000 ∧ y + 10 ≤ 1000)
  ∧ (∀ x y w h,
       findEmptySpace rnd pixels width height = Found x y w h →
       w = width ∧ h = height
       ∧ 0 ≤ x ∧ 0 ≤ y ∧ x + width ≤ 1000 ∧ y + height ≤ 1000
       ∧ ∀ px py, x ≤ px < x + width → y ≤ py < y + height →
                  (px, py) ∉ pixels).
Proof.
  split.
  - intros Hrnd.
    destruct (findEmptySpace_empty rnd 10 10 Hrnd) as (x & y & Hfound & Hc);
      [lia..|].
    exists x, y. unfold grid_candidate in Hc. simpl in Hc. done.
  - intros x y w h. apply findEmptySpace_found.
Qed.

Lemma findEmptySpace_correct_witness :
  (∃ x y, findEmptySpace sample_rnd [] 10 10 = Found x y 10 10
          ∧ x mod 10 = 0 ∧ y mod 10 = 0
          ∧ 0 ≤ x ∧ 0 ≤ y ∧ x + 10 ≤ 1000 ∧ y + 10 ≤ 1000)
  ∧ (20 = 20 ∧ 10 = 10
     ∧ 0 ≤ 730 ∧ 0 ≤ 650 ∧ 730 + 20 ≤ 1000 ∧ 650 + 10 ≤ 1000
     ∧ ∀ px py, 730 ≤ px < 730 + 20 → 650 ≤ py < 650 + 10 →
                (px, py) ∉ [(5, 5); (920, 170)]).
Proof.
  split.
  - apply (findEmptySpace_correct sample_rnd [] 10 10). apply sample_rnd_source.
  - apply (findEmptySpace_correct sample_rnd [(5, 5); (920, 170)] 20 10).
    vm_compute. reflexivity.
Defined.

(** ** Atomic placements, append-only ledger *)

(** C7.  A rejected placement request changes nothing: the canvas, the
    ledger, the image store and both counters are those of before.  An
    accepted one appends its record to the ledger, and no later request
    alters or removes a record: the ledger of any earlier state is a
    prefix of the ledger of every later state. *)
Theorem placement_atomic env body st rs :
  (is_ok (post_ad env body st).1 = false → (post_ad env body st).2 = st)
  ∧ (∀ reply, (post_ad env body st).1 = Ok reply →
       adPlacements (post_ad env body st).2
       = adPlacements st ++ [ar_placement reply])
  ∧ adPlacements st `prefix_of` adPlacements (run rs st).
Proof.
  split_and!.
  - apply (handle_rejected (PostAd env body) st).
  - intros reply Hreply.
    destruct (post_ad_cases env body st)
      as [(e&_&He)|(a&reply'&st'&_&_&He&_&_&_&_&Hl&_)]; rewrite He in *.
    + done.
    + cbn [fst snd] in *. by simplify_eq.
  - apply run_ledger.
Qed.

Lemma placement_atomic_witness :
  (post_ad env_1 (ad_at 990 990 20 20) gallery).2 = gallery.
Proof.
  apply (placement_atomic env_1 (ad_at 990 990 20 20) gallery []).
  vm_compute. reflexivity.
Defined.

(** ** Image handles *)

(** Both placements are accepted, and both reference the same handle. *)
Lemma image_handle_reused :
  all_accepted reuse_run empty_store = true
  ∧ ad_imageId <$> adPlacements (run reuse_run empty_store)
    = ["img_1"%string; "img_1"%string]
  ∧ ¬ single_use (run reuse_run empty_store).
Proof.
  assert (Hids : ad_imageId <$> adPlacements (run reuse_run empty_store)
                 = ["img_1"%string; "img_1"%string]) by (vm_compute; reflexivity).
  split_and!; [vm_compute; reflexivity|done|].
  unfold single_use. rewrite Hids. intros [Hnin _]%NoDup_cons.
  apply Hnin. by left.
Qed.

(** C8 (as amended).  The handle-to-image mapping persists: a handle that
    [GET /images/:id] resolves is resolved after every further sequence of
    requests.  A handle is not consumed by a placement: a placement request
    that was accepted is accepted again when it is submitted after any
    further sequence of requests, so any number of accepted placements may
    reference the same handle. *)
Theorem image_handles_persist h env env' body rs st :
  (is_ok (get_image h st) = true → is_ok (get_image h (run rs st)) = true)
  ∧ (is_ok (post_ad env body st).1 = true →
     is_ok (post_ad env' body (run rs (post_ad env body st).2)).1 = true).
Proof.
  split.
  - rewrite !get_image_is_ok. apply run_images.
  - rewrite !post_ad_is_ok. destruct (ad_checks body st) as [a|e] eqn:Hok; [|done].
    intros _.
    rewrite (ad_checks_stable body st _ a); [done| |done].
    intros id Hid. apply run_images.
    apply (handle_images (PostAd env body) st id Hid).
Qed.

Lemma image_handles_persist_witness :
  is_ok (get_image "img_1" (run reuse_run gallery)) = true
  ∧ is_ok (post_ad env_2 (ad_at 0 0 20 20)
             (run reuse_run (post_ad env_1 (ad_at 0 0 20 20) gallery).2)).1 = true.
Proof.
  split.
  - apply (image_handles_persist "img_1" env_1 env_2 (ad_at 0 0 20 20)
             reuse_run gallery). vm_compute. reflexivity.
  - apply (image_handles_persist "img_1" env_1 env_2 (ad_at 0 0 20 20)
             reuse_run gallery). vm_compute. reflexivity.
Defined.

(** ** Counters and canvas *)



(** ** Colour normalisation *)

(** C10.  An accepted paint has a colour [c] matching the pattern in
    either letter case; the cell stored at its coordinate and the reply
    both carry [c] in upper case, which is [#] followed by six digits among
    [0-9A-F]. *)
Theorem color_normalised now body st :
  is_ok (post_pixel now body st).1 = true →
  ∃ x y c reply cell,
    pb_x body = JNum x ∧ pb_y body = JNum y ∧ pb_color body = JStr c
    ∧ color_re_test c = true
    ∧ (post_pixel now body st).1 = Ok reply
    ∧ pr_color reply = toUpperCase c
    ∧ canvas (post_pixel now body st).2 !! (x, y) = Some cell
    ∧ color cell = toUpperCase c
    ∧ upper_color (toUpperCase c) = true.
Proof.
  intros Hok.
  destruct (post_pixel_cases now body st)
    as [[e He]|(x&y&c&reply&st'&Hx&Hy&Hc&_&_&Hre&He&Hcanvas&Hrc&_)];
    rewrite He in *; [done|].
  eexists x, y, c, reply, _. cbn [fst snd].
  split_and!; try done.
  - rewrite Hcanvas. apply lookup_insert_eq.
  - done.
  - by apply toUpperCase_color.
Qed.

Lemma color_normalised_witness :
  ∃ x y c reply cell,
    pb_x (paint 5 5 "#ff0000" "A") = JNum x
    ∧ pb_y (paint 5 5 "#ff0000" "A") = JNum y
    ∧ pb_color (paint 5 5 "#ff0000" "A") = JStr c
    ∧ color_re_test c = true
    ∧ (post_pixel 1 (paint 5 5 "#ff0000" "A") empty_store).1 = Ok reply
    ∧ pr_color reply = toUpperCase c
    ∧ canvas (post_pixel 1 (paint 5 5 "#ff0000" "A") empty_store).2 !! (x, y)
      = Some cell
    ∧ color cell = toUpperCase c
    ∧ upper_color (toUpperCase c) = true.
Proof.
  apply (color_normalised 1 (paint 5 5 "#ff0000" "A") empty_store).
  vm_compute. reflexivity.
Defined.

(** Painting with [#ff0000] stores [#FF0000]. *)
Example paint_lower_case :
  color <$> canvas (post_pixel 1 (paint 5 5 "#ff0000" "A") empty_store).2 !! (5, 5)
  = Some "#FF0000"%string
  ∧ pr_color <$> (match (post_pixel 1 (paint 5 5 "#ff0000" "A") empty_store).1 with
                  | Ok reply => Some reply
                  | Err _ => None
                  end)
    = Some "#FF0000"%string.
Proof. vm_compute. done. Qed.

(** * Further properties of the server *)

(** ** What a request can change in the canvas *)

Lemma write_coords_ad env body st a :
  ad_valid body st a →
  write_coords (PostAd env body)
  = rect_coords (aa_x a) (aa_y a) (aa_width a) (aa_height a).
Proof. intros [Hx Hy Hw Hh _ _ _ _ _ _ _ _]. cbn. by rewrite Hx, Hy, Hw, Hh. Qed.

(** The canvas after a request, coordinate by coordinate. *)
Lemma handle_canvas_lookup r st k :
  canvas (handle r st) !! k = canvas st !! k
  ∨ (accepted r st = true ∧ k ∈ write_coords r
     ∧ ∃ c, canvas (handle r st) !! k = Some c
            ∧ match r with
              | PostAd env _ => adId c = Some (env_adId env)
              | _ => adId c = None
              end).
Proof.
  destruct r as [now body|env body|env body|]; cbn [handle accepted]; [| | |by left].
  - destruct (post_pixel_cases now body st)
      as [[e ->]|(x&y&c&reply&st'&Hx&Hy&_&_&_&_&->&Hcanvas&_)]; [by left|].
    cbn [fst snd is_ok write_coords]. rewrite Hx, Hy, Hcanvas. cbn [num].
    destruct (decide (k = (x, y))) as [->|Hne].
    + right. split; [done|]. split; [by left|].
      rewrite lookup_insert_eq. eauto.
    + left. by rewrite lookup_insert_ne.
  - destruct (post_ad_cases env body st)
      as [(e&_&->)|(a&reply&st'&_&Hv&->&Hcanvas&_)]; [by left|].
    cbn [fst snd is_ok]. rewrite (write_coords_ad env body st a Hv), Hcanvas.
    rewrite paint_list_lookup.
    destruct (decide (k ∈ rect_coords (aa_x a) (aa_y a) (aa_width a) (aa_height a)));
      [right|by left].
    split; [done|]. split; [done|]. eauto.
  - destruct (post_generate_image_cases env body st)
      as [[e ->]|(reply&st'&bytes&->&Hcanvas&_)]; [by left|].
    left. cbn. by rewrite Hcanvas.
Qed.

Lemma handle_canvas_frame r st k :
  k ∉ write_coords r → canvas (handle r st) !! k = canvas st !! k.
Proof.
  intros Hk. destruct (handle_canvas_lookup r st k) as [H|(_ & Hin & _)]; done.
Qed.

Lemma handle_canvas_mono r st k :
  is_Some (canvas st !! k) → is_Some (canvas (handle r st) !! k).
Proof.
  intros Hk. destruct (handle_canvas_lookup r st k) as [->|(_ & _ & c & -> & _)];
    eauto.
Qed.

Lemma run_canvas_mono rs st k :
  is_Some (canvas st !! k) → is_Some (canvas (run rs st) !! k).
Proof.
  revert st. induction rs as [|r rs IH]; intros st Hk; [done|].
  rewrite run_cons. by apply IH, handle_canvas_mono.
Qed.

(** An accepted request addresses coordinates of the grid only. *)
Lemma accepted_write_in_grid r st k :
  accepted r st = true → k ∈ write_coords r → in_grid k.
Proof.
  destruct r as [now body|env body|env body|]; cbn [accepted write_coords].
  - destruct (post_pixel_cases now body st)
      as [[e ->]|(x&y&c&reply&st'&Hx&Hy&_&Hxr&Hyr&_)]; [done|].
    intros _. rewrite Hx, Hy. cbn [num]. intros ->%list_elem_of_singleton. done.
  - destruct (post_ad_cases env body st)
      as [(e&_&->)|(a&reply&st'&_&Hv&_)]; [done|].
    intros _.
    change (k ∈ write_coords (PostAd env body) → in_grid k).
    rewrite (write_coords_ad env body st a Hv). destruct k as [px py].
    intros [Hpx Hpy]%elem_of_rect_coords.
    destruct Hv as [_ _ _ _ ? ? _ _ (?&?&?&?) _ _ _]. unfold in_grid; simpl. lia.
  - intros _ []%not_elem_of_nil.
  - intros _ []%not_elem_of_nil.
Qed.

Lemma handle_keys_in_grid r st :
  keys_in_grid st → keys_in_grid (handle r st).
Proof.
  intros Hst k Hk.
  destruct (handle_canvas_lookup r st k) as [Heq|(Hacc & Hin & _)].
  - apply Hst. by rewrite <- Heq.
  - by eapply accepted_write_in_grid.
Qed.

Lemma run_keys_in_grid rs st :
  keys_in_grid st → keys_in_grid (run rs st).
Proof.
  revert st. induction rs as [|r rs IH]; intros st Hst; [done|].
  rewrite run_cons. by apply IH, handle_keys_in_grid.
Qed.

Lemma empty_keys_in_grid : keys_in_grid empty_store.
Proof. intros k [c Hc]. cbn in Hc. by rewrite lookup_empty in Hc. Qed.


(** ** What a request can change in the ledger *)

Lemma handle_ledger_cases r st :
  adPlacements (handle r st) = adPlacements st
  ∨ ∃ env body a p,
      r = PostAd env body ∧ accepted r st = true ∧ ad_valid body st a
      ∧ adPlacements (handle r st) = adPlacements st ++ [p]
      ∧ ad_id p = env_adId env
      ∧ ad_x p = aa_x a ∧ ad_y p = aa_y a
      ∧ ad_width p = aa_width a ∧ ad_height p = aa_height a
      ∧ ad_pixels p = aa_width a * aa_height a
      ∧ ad_totalCost p = (inject_Z (aa_width a * aa_height a) * PIXEL_PRICE)%Q
      ∧ ad_imageId p = aa_imageId a
      ∧ ad_imageUrl p = image_url (env_port env) (aa_imageId a)
      ∧ ad_linkUrl p = aa_linkUrl a ∧ ad_title p = aa_title a.
Proof.
  destruct r as [now body|env body|env body|]; cbn [handle accepted]; [| | |by left].
  - destruct (post_pixel_cases now body st) as [[e ->]|(?&?&?&?&?&H)]; [by left|].
    destruct H as (_&_&_&_&_&_&->&_&_&_&_&_&_&Hl&_). by left.
  - destruct (post_ad_cases env body st)
      as [(e&_&->)|(a&reply&st'&_&Hv&->&_&_&_&_&Hl&_&Hp)]; [by left|].
    right. exists env, body, a, (ar_placement reply). cbn [fst snd is_ok].
    rewrite Hp. cbn. rewrite Hl, Hp. done.
  - destruct (post_generate_image_cases env body st)
      as [[e ->]|(?&?&?&->&_&Hl&_)]; by left.
Qed.

Lemma placement_wf_of_valid body st a p :
  ad_valid body st a →
  ad_x p = aa_x a → ad_y p = aa_y a →
  ad_width p = aa_width a → ad_height p = aa_height a →
  ad_pixels p = aa_width a * aa_height a →
  ad_totalCost p = (inject_Z (aa_width a * aa_height a) * PIXEL_PRICE)%Q →
  ad_imageId p = aa_imageId a →
  ad_linkUrl p = aa_linkUrl a → ad_title p = aa_title a →
  placement_wf p.
Proof.
  intros [_ _ _ _ ? ? ? ? ? (_ & ? & _) (_ & ?) (_ & ?)]
    Hx Hy Hw Hh Hpx Hcost Hid Hlink Htitle.
  split; rewrite ?Hx, ?Hy, ?Hw, ?Hh, ?Hpx, ?Hcost, ?Hid, ?Hlink, ?Htitle; done.
Qed.

Lemma handle_ledger_wf r st :
  Forall placement_wf (adPlacements st) →
  Forall placement_wf (adPlacements (handle r st)).
Proof.
  intros Hst.
  destruct (handle_ledger_cases r st)
    as [->|(env&body&a&p&_&_&Hv&->&_&Hx&Hy&Hw&Hh&Hpx&Hcost&Hid&_&Hlink&Htitle)];
    [done|].
  apply Forall_app. split; [done|]. constructor; [|done].
  by eapply placement_wf_of_valid.
Qed.

Lemma run_ledger_wf rs st :
  Forall placement_wf (adPlacements st) →
  Forall placement_wf (adPlacements (run rs st)).
Proof.
  revert st. induction rs as [|r rs IH]; intros st Hst; [done|].
  rewrite run_cons. by apply IH, handle_ledger_wf.
Qed.

(** Every record of the ledger references a stored image. *)
Lemma handle_ledger_images r st :
  Forall (fun p => is_Some (generatedImages st !! ad_imageId p)) (adPlacements st) →
  Forall (fun p => is_Some (generatedImages (handle r st) !! ad_imageId p))
         (adPlacements (handle r st)).
Proof.
  intros Hst.
  assert (Hold : Forall (fun p => is_Some (generatedImages (handle r st) !! ad_imageId p))
                        (adPlacements st)).
  { eapply Forall_impl; [done|]. intros p. apply handle_images. }
  destruct (handle_ledger_cases r st)
    as [->|(env&body&a&p&_&_&Hv&->&_&_&_&_&_&_&_&Hid&_)]; [done|].
  apply Forall_app. split; [done|]. constructor; [|done].
  rewrite Hid. apply handle_images. by destruct Hv as [_ _ _ _ _ _ _ _ _ (_&_&?) _ _].
Qed.

Lemma run_ledger_images rs st :
  Forall (fun p => is_Some (generatedImages st !! ad_imageId p)) (adPlacements st) →
  Forall (fun p => is_Some (generatedImages (run rs st) !! ad_imageId p))
         (adPlacements (run rs st)).
Proof.
  revert st. induction rs as [|r rs IH]; intros st Hst; [done|].
  rewrite run_cons. by apply IH, handle_ledger_images.
Qed.

(** Every cell that carries an ad id lies in the rectangle of a ledger
    record with that id. *)
Lemma handle_cells_traced r st :
  cells_traced st → cells_traced (handle r st).
Proof.
  intros Hst k c id Hk Hid.
  destruct (handle_canvas_lookup r st k) as [Heq|(Hacc & Hin & c' & Hc' & Had)].
  - rewrite Heq in Hk. destruct (Hst k c id Hk Hid) as (p & Hp & Hpid & Hrect).
    exists p. split; [|done].
    destruct (handle_ledger r st) as [l ->]. apply elem_of_app. by left.
  - rewrite Hk in Hc'. injection Hc' as <-.
    destruct r as [now body|env body|env body|]; try congruence.
    rewrite Hid in Had. injection Had as ->.
    destruct (handle_ledger_cases (PostAd env body) st)
      as [Hl|(env'&body'&a&p&Hr&_&Hv&Hl&Hpid&Hx&Hy&Hw&Hh&_)].
    + cbn [handle accepted] in *.
      destruct (post_ad_cases env body st)
        as [(e&_&He)|(a&reply&st'&_&_&He&_&_&_&_&Hl'&_)]; rewrite He in *;
        [done|].
      cbn [fst snd] in Hl. rewrite Hl' in Hl.
      apply (f_equal length) in Hl. rewrite length_app in Hl. simpl in Hl. lia.
    + injection Hr as <- <-. exists p. rewrite Hl. split; [|split; [done|]].
      * apply elem_of_app. right. by left.
      * unfold ad_rect. rewrite Hx, Hy, Hw, Hh.
        by rewrite <- (write_coords_ad env body st a Hv).
Qed.

Lemma run_cells_traced rs st : cells_traced st → cells_traced (run rs st).
Proof.
  revert st. induction rs as [|r rs IH]; intros st Hst; [done|].
  rewrite run_cons. by apply IH, handle_cells_traced.
Qed.

Lemma empty_cells_traced : cells_traced empty_store.
Proof. intros k c id Hk. cbn in Hk. by rewrite lookup_empty in Hk. Qed.

(** The ledger grows by one record per accepted placement. *)
Lemma run_ledger_length rs st :
  length (adPlacements (run rs st))
  = (length (adPlacements st) + accepted_placements rs st)%nat.
Proof.
  revert st. induction rs as [|r rs IH]; intros st.
  - cbn. lia.
  - rewrite run_cons, IH. cbn [accepted_placements].
    destruct (handle_ledger_cases r st) as [Hl|(env&body&a&p&->&Hacc&_&Hl&_)].
    + rewrite Hl.
      destruct r as [now body|env body|env body|]; try lia.
      destruct (accepted (PostAd env body) st) eqn:Hacc; [|lia].
      exfalso. cbn [handle accepted] in *.
      destruct (post_ad_cases env body st)
        as [(e&_&He)|(a&reply&st'&_&_&He&_&_&_&_&Hl'&_)]; rewrite He in *;
        [done|].
      cbn [fst snd] in Hl. rewrite Hl' in Hl.
      apply (f_equal length) in Hl. rewrite length_app in Hl. simpl in Hl. lia.
    + rewrite Hl, Hacc, length_app. simpl. lia.
Qed.

(** ** Counting fresh coordinates *)

Lemma count_fresh_none m ks :
  (∀ k, k ∈ ks → is_Some (m !! k)) → count_fresh m ks = 0.
Proof.
  induction ks as [|a ks IH]; intros Hks; [done|].
  rewrite count_fresh_cons, IH by (intros k Hk; apply Hks; by right).
  rewrite decide_False; [done|].
  unfold fresh_in. destruct (Hks a) as [c ->]; [by left|done].
Qed.


(** ** The snapshot of [GET /canvas] *)





(** ** The viewer's hit test *)

Lemma hovered_ad_Some ads px py p :
  hovered_ad ads px py = Some p →
  p ∈ ads ∧ ad_x p ≤ px < ad_x p + ad_width p
  ∧ ad_y p ≤ py < ad_y p + ad_height p.
Proof.
  unfold hovered_ad. intros [Hin Hp]%find_some.
  split; [by apply list_elem_of_In|]. rewrite !Z.geb_leb in Hp. tests_to_props. lia.
Qed.

Lemma hovered_ad_None ads px py :
  hovered_ad ads px py = None ↔
  ∀ p, p ∈ ads →
       ¬ (ad_x p ≤ px < ad_x p + ad_width p ∧ ad_y p ≤ py < ad_y p + ad_height p).
Proof.
  unfold hovered_ad. split.
  - intros Hnone p Hp%list_elem_of_In Hin.
    pose proof (find_none _ _ Hnone p Hp) as Hf. cbn beta in Hf.
    rewrite !Z.geb_leb in Hf. tests_to_props; lia.
  - intros Hall.
    destruct (find _ ads) as [p|] eqn:Hf; [|done].
    apply find_some in Hf as [Hp%list_elem_of_In Hin].
    exfalso. apply (Hall p Hp). rewrite !Z.geb_leb in Hin. tests_to_props. lia.
Qed.

(** * Further properties: statements *)

(** ** Invariants of the store *)

(** X1.  Whatever requests the server has handled since it started, every
    painted coordinate lies inside the 1000x1000 grid. *)
Theorem painted_coordinates_in_grid rs k :
  is_Some (canvas (run rs empty_store) !! k) →
  0 ≤ k.1 < 1000 ∧ 0 ≤ k.2 < 1000.
Proof. intros Hk. by apply (run_keys_in_grid rs empty_store empty_keys_in_grid). Qed.

Lemma painted_coordinates_in_grid_witness :
  0 ≤ (119, 119).1 < 1000 ∧ 0 ≤ (119, 119).2 < 1000.
Proof.
  apply (painted_coordinates_in_grid reuse_run (119, 119)).
  vm_compute. eauto.
Defined.


(** X3.  A cell is never deleted: once [GET /pixel/:x/:y] reports a
    coordinate as taken, it reports it as taken after every further
    sequence of requests. *)
Theorem painted_stays_painted rs st x y p :
  get_pixel (Some x) (Some y) st = Ok (QTaken x y p) →
  ∃ p', get_pixel (Some x) (Some y) (run rs st) = Ok (QTaken x y p').
Proof.
  unfold get_pixel.
  destruct ((x <? 0) || (x >=? CANVAS_WIDTH) || (y <? 0) || (y >=? CANVAS_HEIGHT));
    [done|].
  destruct (canvas st !! (x, y)) as [c|] eqn:Hc; [|done]. intros _.
  destruct (run_canvas_mono rs st (x, y)) as [c' ->]; eauto.
Qed.

Lemma painted_stays_painted_witness :
  ∃ p', get_pixel (Some 5) (Some 5)
          (run reuse_run (handle (PostPixel 1 (paint 5 5 "#FF0000" "A")) gallery))
        = Ok (QTaken 5 5 p').
Proof.
  apply (painted_stays_painted reuse_run
           (handle (PostPixel 1 (paint 5 5 "#FF0000" "A")) gallery) 5 5
           {| color := "#FF0000"; owner := JStr "A"; url := JUndefined;
              adId := None; timestamp := 1 |}).
  vm_compute. reflexivity.
Defined.

(** X4.  A request changes no cell outside the coordinates it addresses:
    a paint leaves every other coordinate as it was, a placement every
    coordinate outside its rectangle, and the other requests the whole
    canvas. *)
Theorem request_frame r st k :
  k ∉ write_coords r → canvas (handle r st) !! k = canvas st !! k.
Proof. apply handle_canvas_frame. Qed.

Lemma request_frame_witness :
  canvas (handle (PostAd env_2 (ad_at 10 10 20 20))
            (handle (PostPixel 1 (paint 5 5 "#FF0000" "A")) gallery)) !! (5, 5)
  = canvas (handle (PostPixel 1 (paint 5 5 "#FF0000" "A")) gallery) !! (5, 5).
Proof.
  apply (request_frame (PostAd env_2 (ad_at 10 10 20 20))
           (handle (PostPixel 1 (paint 5 5 "#FF0000" "A")) gallery) (5, 5)).
  change (write_coords (PostAd env_2 (ad_at 10 10 20 20)))
    with (rect_coords 10 10 20 20).
  intros [Hx _]%elem_of_rect_coords. lia.
Defined.

(** X5.  Every record of the ledger satisfies the size policy: width and
    height are multiples of 10 between 10 and 100, the rectangle lies
    inside the grid, [pixels] is width times height, the total cost is
    [pixels] times the unit price, and image id, link and title are not
    empty. *)
Theorem ledger_records_valid rs :
  Forall placement_wf (adPlacements (run rs empty_store)).
Proof. apply run_ledger_wf. constructor. Qed.

(** X6.  Every ad listed by [GET /ads] has an image that
    [GET /images/:id] serves, under the URL the listing gives for it; the
    listing keeps the order of the ledger and [total] is its length. *)
Theorem listed_ads_have_images port rs :
  Forall (fun p => is_ok (get_image (ad_imageId p) (run rs empty_store)) = true
                   ∧ ad_imageUrl p = image_url port (ad_imageId p))
         (placements (get_ads port (run rs empty_store)))
  ∧ ad_id <$> placements (get_ads port (run rs empty_store))
    = ad_id <$> adPlacements (run rs empty_store)
  ∧ ads_total (get_ads port (run rs empty_store))
    = Z.of_nat (length (placements (get_ads port (run rs empty_store)))).
Proof.
  unfold get_ads. cbn [placements ads_total]. split_and!.
  - apply Forall_fmap.
    eapply Forall_impl; [apply (run_ledger_images rs empty_store); constructor|].
    intros p Hp. cbn. split; [|done]. by apply get_image_is_ok.
  - rewrite <- list_fmap_compose. by apply list_fmap_ext.
  - by rewrite length_fmap.
Qed.

(** X7.  Every cell that carries an ad id lies in the rectangle of a
    ledger record with that id, so the viewer's hit test finds an ad at
    every such coordinate. *)
Theorem ad_cells_in_ledger rs k c id :
  canvas (run rs empty_store) !! k = Some c → adId c = Some id →
  (∃ p, p ∈ adPlacements (run rs empty_store) ∧ ad_id p = id
        ∧ ad_x p ≤ k.1 < ad_x p + ad_width p
        ∧ ad_y p ≤ k.2 < ad_y p + ad_height p)
  ∧ is_Some (hovered_ad (adPlacements (run rs empty_store)) k.1 k.2).
Proof.
  intros Hk Hid.
  destruct (run_cells_traced rs empty_store empty_cells_traced k c id Hk Hid)
    as (p & Hp & Hpid & Hrect).
  destruct k as [x y]. apply elem_of_rect_coords in Hrect. cbn [fst snd].
  split; [by exists p|].
  destruct (hovered_ad _ x y) as [q|] eqn:Hq; [eauto|].
  exfalso. by eapply hovered_ad_None.
Qed.

Lemma ad_cells_in_ledger_witness :
  (∃ p, p ∈ adPlacements (run reuse_run empty_store) ∧ ad_id p = "ad_2"%string
        ∧ ad_x p ≤ (119, 119).1 < ad_x p + ad_width p
        ∧ ad_y p ≤ (119, 119).2 < ad_y p + ad_height p)
  ∧ is_Some (hovered_ad (adPlacements (run reuse_run empty_store))
                        (119, 119).1 (119, 119).2).
Proof.
  apply (ad_cells_in_ledger reuse_run (119, 119)
           (ad_cell env_2 (JStr "0xA") (119, 119)) "ad_2").
  - vm_compute. reflexivity.
  - reflexivity.
Defined.

(** X8.  The number of placements that [GET /info] and [GET /ads] report
    is the number of [POST /ad] requests that were accepted. *)
Theorem placement_count port rs :
  info_adPlacements (get_info (run rs empty_store))
  = Z.of_nat (accepted_placements rs empty_store)
  ∧ ads_total (get_ads port (run rs empty_store))
    = Z.of_nat (accepted_placements rs empty_store).
Proof.
  unfold get_info, get_ads. cbn [info_adPlacements ads_total].
  rewrite run_ledger_length. cbn. done.
Qed.

(** ** Placements on occupied ground *)

(** X9.  The server makes no occupancy check: a placement that was
    accepted is accepted again on the same rectangle.  The second
    placement introduces no new pixel, so the revenue and the pixels-sold
    counter stay as they are although its total cost is positive; the
    ledger gains a record and every cell of the rectangle now carries the
    second placement's id. *)
Theorem overlapping_placement_accepted env env' body st :
  is_ok (post_ad env body st).1 = true →
  ∃ reply,
    (post_ad env' body (post_ad env body st).2).1 = Ok reply
    ∧ ar_newPixels reply = 0
    ∧ (0 < ad_totalCost (ar_placement reply))%Q
    ∧ totalRevenue (post_ad env' body (post_ad env body st).2).2
      = (totalRevenue (post_ad env body st).2 + inject_Z 0 * PIXEL_PRICE)%Q
    ∧ totalPixelsSold (post_ad env' body (post_ad env body st).2).2
      = totalPixelsSold (post_ad env body st).2
    ∧ length (adPlacements (post_ad env' body (post_ad env body st).2).2)
      = S (length (adPlacements (post_ad env body st).2))
    ∧ ∀ k, k ∈ write_coords (PostAd env' body) →
           ∃ c, canvas (post_ad env' body (post_ad env body st).2).2 !! k = Some c
                ∧ adId c = Some (env_adId env').
Proof.
  intros Hok.
  destruct (post_ad_cases env body st)
    as [(e&_&He)|(a&reply1&st1&Hchecks&Hv&He&Hcanvas1&_&_&_&_&Himg&_)];
    rewrite He in *; [done|]. cbn [fst snd].
  assert (Hchecks1 : ad_checks body st1 = Ok a).
  { apply (ad_checks_stable body st); [|done]. intros id. by rewrite Himg. }
  destruct (post_ad_cases env' body st1)
    as [(e&He'&_)|(a'&reply&st2&Hchecks'&Hv'&He'&Hcanvas&Hnew&Hsold&Hrev&Hl&_&Hp)];
    [congruence|].
  assert (a' = a) as -> by congruence.
  rewrite He'. cbn [fst snd]. exists reply.
  assert (Hzero : ar_newPixels reply = 0).
  { rewrite Hnew. apply count_fresh_none. intros k Hk.
    rewrite Hcanvas1, paint_list_lookup, decide_True by done. eauto. }
  split_and!; try done.
  - rewrite Hp. cbn [ad_totalCost].
    destruct Hv as [_ _ _ _ ? ? _ _ _ _ _ _].
    apply Qmult_lt_0_compat; [|done].
    replace 0%Q with (inject_Z 0) by done. rewrite <- Zlt_Qlt. nia.
  - by rewrite Hrev, Hzero.
  - rewrite Hsold, Hzero. lia.
  - rewrite Hl, length_app. simpl. lia.
  - rewrite (write_coords_ad env' body st a Hv). intros k Hk.
    rewrite Hcanvas, paint_list_lookup, decide_True by done. eauto.
Qed.

Lemma overlapping_placement_accepted_witness :
  ∃ reply,
    (post_ad env_2 (ad_at 0 0 20 20) (post_ad env_1 (ad_at 0 0 20 20) gallery).2).1
    = Ok reply
    ∧ ar_newPixels reply = 0
    ∧ (0 < ad_totalCost (ar_placement reply))%Q
    ∧ totalRevenue
        (post_ad env_2 (ad_at 0 0 20 20) (post_ad env_1 (ad_at 0 0 20 20) gallery).2).2
      = (totalRevenue (post_ad env_1 (ad_at 0 0 20 20) gallery).2
         + inject_Z 0 * PIXEL_PRICE)%Q
    ∧ totalPixelsSold
        (post_ad env_2 (ad_at 0 0 20 20) (post_ad env_1 (ad_at 0 0 20 20) gallery).2).2
      = totalPixelsSold (post_ad env_1 (ad_at 0 0 20 20) gallery).2
    ∧ length (adPlacements
                (post_ad env_2 (ad_at 0 0 20 20)
                         (post_ad env_1 (ad_at 0 0 20 20) gallery).2).2)
      = S (length (adPlacements (post_ad env_1 (ad_at 0 0 20 20) gallery).2))
    ∧ ∀ k, k ∈ write_coords (PostAd env_2 (ad_at 0 0 20 20)) →
           ∃ c, canvas (post_ad env_2 (ad_at 0 0 20 20)
                          (post_ad env_1 (ad_at 0 0 20 20) gallery).2).2 !! k
                = Some c
                ∧ adId c = Some (env_adId env_2).
Proof.
  apply (overlapping_placement_accepted env_1 env_2 (ad_at 0 0 20 20) gallery).
  vm_compute. reflexivity.
Defined.

(** ** Image generation *)

Lemma post_generate_image_failure env body st :
  failure_of (post_generate_image env body st).1
  = first_failure (gen_stages env body).
Proof.
  unfold post_generate_image, gen_checks, gen_stages.
  destruct (gb_width body) as [| | |width| |]; simpl; try done.
  destruct (gb_height body) as [| | |height| |]; simpl; try done.
  rewrite missing_string_nonempty.
  destruct (Z.leb_spec 10 width), (Z.leb_spec 10 height); simpl;
    step_reject; tests_to_props; try lia; try done.
  rewrite !Z.rem_mod_nonneg by lia.
  destruct (Z.eqb_spec (width mod 10) 0), (Z.eqb_spec (height mod 10) 0);
    simpl; try done.
  destruct (nonempty_string (gb_prompt body)); simpl; [|done].
  by destruct (gen_image env).
Qed.

Lemma gen_checks_accepts width height prompt :
  10 ≤ width → 10 ≤ height → width mod 10 = 0 → height mod 10 = 0 →
  nonempty_string prompt = true →
  gen_checks {| gb_prompt := prompt; gb_width := JNum width;
                gb_height := JNum height |} = Ok (width, height).
Proof.
  intros Hw Hh Hwa Hha Hp. unfold gen_checks. cbn.
  rewrite missing_string_nonempty, Hp, !Z.rem_mod_nonneg, Hwa, Hha by lia.
  destruct (Z.ltb_spec width 10), (Z.ltb_spec height 10); try lia. done.
Qed.

(** X10.  [POST /generate-image] rejects with the failure of the first
    requirement violated, in this order: numeric width and height
    ([InvalidInput]), both at least 10 ([TooSmall]), both multiples of 10
    ([Misaligned]), a non-empty string prompt ([InvalidInput]), an image
    returned by the image model ([UpstreamFailure]).  There is no maximum
    size: every size that [POST /ad] accepts passes, and so do larger
    ones. *)
Theorem generate_image_validation env body st :
  failure_of (post_generate_image env body st).1
  = first_failure (gen_stages env body)
  ∧ (∀ adbody st' prompt,
       is_ok (ad_checks adbody st') = true →
       nonempty_string prompt = true →
       is_ok (gen_checks {| gb_prompt := prompt;
                            gb_width := ab_width adbody;
                            gb_height := ab_height adbody |}) = true)
  ∧ (∀ width height prompt,
       10 ≤ width → 10 ≤ height → width mod 10 = 0 → height mod 10 = 0 →
       nonempty_string prompt = true →
       gen_checks {| gb_prompt := prompt; gb_width := JNum width;
                     gb_height := JNum height |} = Ok (width, height)).
Proof.
  pose proof gen_checks_accepts as Hsizes.
  split_and!; [apply post_generate_image_failure| |done].
  intros adbody st' prompt Hok Hp.
  destruct (ad_checks adbody st') as [a|] eqn:Hchecks; [|done].
  apply ad_checks_ok in Hchecks as [_ _ -> -> ? ? ? ? _ _ _ _].
  rewrite Hsizes; [done|lia..|done].
Qed.

Lemma generate_image_validation_witness :
  is_ok (gen_checks {| gb_prompt := JStr "a banner";
                       gb_width := ab_width (ad_at 0 0 20 20);
                       gb_height := ab_height (ad_at 0 0 20 20) |}) = true
  ∧ gen_checks {| gb_prompt := JStr "a banner"; gb_width := JNum 200;
                  gb_height := JNum 300 |} = Ok (200, 300).
Proof.
  split.
  - apply (proj1 (proj2 (generate_image_validation gen_1 gen_body gallery))
             (ad_at 0 0 20 20) gallery (JStr "a banner")); reflexivity.
  - apply (proj2 (proj2 (generate_image_validation gen_1 gen_body gallery)));
      (lia || reflexivity).
Defined.

(** X11.  A generated image is served: after an accepted
    [POST /generate-image], [GET /images/:id] returns the bytes of the
    image model under content type image/png for the new id; the canvas,
    the ledger and the counters are untouched, and every other id resolves
    as before. *)
Theorem generated_image_served env body st :
  is_ok (post_generate_image env body st).1 = true →
  ∃ bytes,
    gen_image env = Some bytes
    ∧ get_image (gen_imageId env) (post_generate_image env body st).2
      = Ok {| data := bytes; contentType := "image/png" |}
    ∧ canvas (post_generate_image env body st).2 = canvas st
    ∧ adPlacements (post_generate_image env body st).2 = adPlacements st
    ∧ totalRevenue (post_generate_image env body st).2 = totalRevenue st
    ∧ totalPixelsSold (post_generate_image env body st).2 = totalPixelsSold st
    ∧ ∀ id, id ≠ gen_imageId env →
            get_image id (post_generate_image env body st).2 = get_image id st.
Proof.
  unfold post_generate_image.
  destruct (gen_checks body) as [[width height]|e]; [|done].
  destruct (gen_image env) as [bytes|]; [|done]. intros _.
  exists bytes. cbn [fst snd]. unfold get_image. cbn.
  rewrite lookup_insert_eq. split_and!; try done.
  intros id Hid. by rewrite lookup_insert_ne.
Qed.

Lemma generated_image_served_witness :
  ∃ bytes,
    gen_image gen_1 = Some bytes
    ∧ get_image (gen_imageId gen_1) (post_generate_image gen_1 gen_body empty_store).2
      = Ok {| data := bytes; contentType := "image/png" |}
    ∧ canvas (post_generate_image gen_1 gen_body empty_store).2 = canvas empty_store
    ∧ adPlacements (post_generate_image gen_1 gen_body empty_store).2
      = adPlacements empty_store
    ∧ totalRevenue (post_generate_image gen_1 gen_body empty_store).2
      = totalRevenue empty_store
    ∧ totalPixelsSold (post_generate_image gen_1 gen_body empty_store).2
      = totalPixelsSold empty_store
    ∧ ∀ id, id ≠ gen_imageId gen_1 →
            get_image id (post_generate_image gen_1 gen_body empty_store).2
            = get_image id empty_store.
Proof.
  apply (generated_image_served gen_1 gen_body empty_store). reflexivity.
Defined.

(** ** Availability *)




(** * Further properties of the empty-space search *)

(** ** The shuffle keeps the candidates *)

Lemma elem_of_swap (a : list (Z * Z)) i j c : c ∈ swap a i j ↔ c ∈ a.
Proof.
  split.
  - intros Hc. destruct (swap_spec (fun c => c ∈ a) a i j) as [HF _].
    { by apply Forall_forall. }
    rewrite Forall_forall in HF. by apply HF.
  - unfold swap.
    destruct (a !! i) as [ci|] eqn:Hi; [|done].
    destruct (a !! j) as [cj|] eqn:Hj; [|done].
    pose proof (lookup_lt_Some _ _ _ Hi) as Hli.
    pose proof (lookup_lt_Some _ _ _ Hj) as Hlj.
    intros (n & Hn)%list_elem_of_lookup. apply list_elem_of_lookup.
    destruct (decide (n = i)) as [->|Hni].
    + exists j. rewrite list_lookup_insert_eq by (by rewrite length_insert).
      congruence.
    + destruct (decide (n = j)) as [->|Hnj].
      * exists i. rewrite list_lookup_insert_ne by done.
        rewrite list_lookup_insert_eq by done. congruence.
      * exists n. by rewrite !list_lookup_insert_ne.
Qed.

Lemma elem_of_shuffle_from i rnd k (a : list (Z * Z)) c :
  c ∈ shuffle_from i rnd k a ↔ c ∈ a.
Proof.
  revert k a. induction i as [|i IH]; intros k a; [done|].
  cbn [shuffle_from]. by rewrite IH, elem_of_swap.
Qed.

Lemma elem_of_shuffle rnd k (a : list (Z * Z)) c : c ∈ shuffle rnd k a ↔ c ∈ a.
Proof. apply elem_of_shuffle_from. Qed.

(** ** What the search returns *)

Lemma rect_is_empty_false occupied cx cy width height :
  rect_is_empty occupied cx cy width height = false
  ↔ ∃ px py, cx ≤ px < cx + width ∧ cy ≤ py < cy + height ∧ (px, py) ∈ occupied.
Proof.
  split.
  - intros Hfalse.
    destruct (decide (Exists (fun k => k ∈ occupied) (rect_coords cx cy width height)))
      as [Hex|Hnex].
    + apply Exists_exists in Hex as ([px py] & Hin & Hocc).
      apply elem_of_rect_coords in Hin as [Hpx Hpy]. by exists px, py.
    + exfalso. assert (Htrue : rect_is_empty occupied cx cy width height = true).
      { apply rect_is_empty_spec. intros px py Hpx Hpy Hocc. apply Hnex.
        apply Exists_exists. exists (px, py). split; [|done].
        by apply elem_of_rect_coords. }
      congruence.
  - intros (px & py & Hpx & Hpy & Hocc).
    destruct (rect_is_empty occupied cx cy width height) eqn:He; [|done].
    rewrite rect_is_empty_spec in He. by destruct (He px py Hpx Hpy).
Qed.

Lemma check_candidates_NotFound pixels width height candidates :
  check_candidates (list_to_set pixels) width height candidates = NotFound
  ↔ ∀ c, c ∈ candidates → blocked pixels width height c.
Proof.
  induction candidates as [|[cx cy] rest IH]; cbn [check_candidates].
  - split; [|done]. by intros _ c ?%not_elem_of_nil.
  - destruct (Z.ltb_spec cx 0) as [Hx|Hx]; cbn [orb].
    { rewrite IH. split.
      - intros H c [->|Hc]%elem_of_cons; [by left|by apply H].
      - intros H c Hc. apply H. by right. }
    destruct (Z.ltb_spec cy 0) as [Hy|Hy]; cbn [orb].
    { rewrite IH. split.
      - intros H c [->|Hc]%elem_of_cons; [right; by left|by apply H].
      - intros H c Hc. apply H. by right. }
    rewrite !Z.gtb_ltb.
    destruct (Z.ltb_spec 1000 (cx + width)) as [Hw|Hw]; cbn [orb].
    { rewrite IH. split.
      - intros H c [->|Hc]%elem_of_cons; [do 2 right; by left|by apply H].
      - intros H c Hc. apply H. by right. }
    destruct (Z.ltb_spec 1000 (cy + height)) as [Hh|Hh]; cbn [orb].
    { rewrite IH. split.
      - intros H c [->|Hc]%elem_of_cons; [do 3 right; by left|by apply H].
      - intros H c Hc. apply H. by right. }
    destruct (rect_is_empty (list_to_set pixels) cx cy width height) eqn:He.
    + split; [done|]. intros H. exfalso.
      destruct (H (cx, cy)) as [?|[?|[?|[?|(px & py & Hpx & Hpy & Hocc)]]]];
        cbn [fst snd] in *; try lia; [by left|].
      rewrite rect_is_empty_spec in He. apply (He px py Hpx Hpy).
      by apply elem_of_list_to_set.
    + rewrite IH. split.
      * intros H c [->|Hc]%elem_of_cons; [|by apply H].
        do 4 right. apply rect_is_empty_false in He as (px & py & ? & ? & Hocc).
        exists px, py. cbn [fst snd]. split; [done|]. split; [done|].
        by apply elem_of_list_to_set in Hocc.
      * intros H c Hc. apply H. by right.
Qed.

Lemma findEmptySpace_candidates rnd pixels width height :
  findEmptySpace rnd pixels width height
  = check_candidates (list_to_set pixels) width height
      (shuffle rnd (push_candidates 100 rnd 0 width height []).2
               (sampled rnd width height)).
Proof.
  unfold findEmptySpace, sampled.
  by destruct (push_candidates 100 rnd 0 width height []).
Qed.

Lemma snap10_aligned v : snap10 v mod 10 = 0.
Proof. unfold snap10. by rewrite Z.mod_mul. Qed.

Lemma sampled_aligned rnd width height c :
  c ∈ sampled rnd width height → c.1 mod 10 = 0 ∧ c.2 mod 10 = 0.
Proof.
  unfold sampled, snap_candidates.
  intros (c0 & <- & _)%list_elem_of_In%in_map_iff. cbn.
  split; apply snap10_aligned.
Qed.

Lemma findEmptySpace_in_sampled rnd pixels width height x y w h :
  findEmptySpace rnd pixels width height = Found x y w h →
  (x, y) ∈ sampled rnd width height.
Proof.
  rewrite findEmptySpace_candidates.
  intros (_ & _ & Hin & _)%check_candidates_found. by apply elem_of_shuffle in Hin.
Qed.

Lemma findEmptySpace_NotFound rnd pixels width height :
  findEmptySpace rnd pixels width height = NotFound
  ↔ ∀ c, c ∈ sampled rnd width height → blocked pixels width height c.
Proof.
  rewrite findEmptySpace_candidates, check_candidates_NotFound.
  by setoid_rewrite elem_of_shuffle.
Qed.

(** X14.  The search is best effort, not exhaustive: it tests the 100
    sampled positions and nothing else.  A position it returns is one of
    them, hence on the 10-pixel grid whatever the size asked for; it
    reports that nothing was found exactly when each sampled position
    sticks out of the grid or has an occupied coordinate in its
    rectangle. *)
Theorem findEmptySpace_sampled rnd pixels width height :
  (∀ x y w h,
     findEmptySpace rnd pixels width height = Found x y w h →
     (x, y) ∈ sampled rnd width height ∧ x mod 10 = 0 ∧ y mod 10 = 0)
  ∧ (findEmptySpace rnd pixels width height = NotFound
     ↔ ∀ c, c ∈ sampled rnd width height → blocked pixels width height c).
Proof.
  split.
  - intros x y w h Hin%findEmptySpace_in_sampled. split; [done|].
    by apply (sampled_aligned rnd width height (x, y)).
  - apply findEmptySpace_NotFound.
Qed.

Lemma findEmptySpace_sampled_witness :
  (730, 650) ∈ sampled sample_rnd 20 10 ∧ 730 mod 10 = 0 ∧ 650 mod 10 = 0.
Proof.
  apply (proj1 (findEmptySpace_sampled sample_rnd [(5, 5); (920, 170)] 20 10)
           730 650 20 10).
  vm_compute. reflexivity.
Defined.

Lemma random_floor_zero r : random_floor r 0 = 0.
Proof.
  unfold random_floor.
  assert (Hz : (r * inject_Z 0 == inject_Z 0)%Q) by (cbn; ring).
  rewrite (Qfloor_comp _ _ Hz). apply Qfloor_Z.
Qed.

(** A sampled position fits in the grid when the size does. *)
Lemma sampled_in_bounds rnd width height c :
  random_source rnd → width ≤ 1000 → height ≤ 1000 →
  c ∈ sampled rnd width height →
  0 ≤ c.1 ∧ 0 ≤ c.2 ∧ c.1 + width ≤ 1000 ∧ c.2 + height ≤ 1000.
Proof.
  intros Hrnd Hw Hh.
  assert (Hone : ∀ r n, (0 <= r)%Q → (r < 1)%Q → 0 ≤ n →
                        0 ≤ snap10 (random_floor r n)
                        ∧ snap10 (random_floor r n) + (1000 - n) ≤ 1000).
  { intros r n Hr0 Hr1 Hn. unfold snap10.
    assert (Hv : 0 ≤ random_floor r n ∧ random_floor r n ≤ n).
    { destruct (decide (n = 0)) as [->|Hne].
      - rewrite random_floor_zero. lia.
      - pose proof (random_floor_range r n Hr0 Hr1). lia. }
    pose proof (Z.mul_div_le (random_floor r n) 10).
    pose proof (Z.div_pos (random_floor r n) 10). lia. }
  unfold sampled.
  destruct (push_candidates_spec
              (fun c => (0 ≤ snap10 c.1 ∧ snap10 c.1 + width ≤ 1000)
                        ∧ (0 ≤ snap10 c.2 ∧ snap10 c.2 + height ≤ 1000))
              rnd width height 100 0 []) as [Hall _]; [|done|].
  { intros i j. destruct (Hrnd i), (Hrnd j). cbn [fst snd].
    split.
    - destruct (Hone (rnd i) (1000 - width)); [done..|lia|lia].
    - destruct (Hone (rnd j) (1000 - height)); [done..|lia|lia]. }
  unfold snap_candidates.
  intros (c0 & <- & Hc0%list_elem_of_In)%list_elem_of_In%in_map_iff.
  rewrite Forall_forall in Hall. specialize (Hall c0 Hc0). cbn [fst snd]. lia.
Qed.

Lemma sampled_nonempty rnd width height : sampled rnd width height ≠ [].
Proof.
  unfold sampled.
  destruct (push_candidates_spec (fun _ => True) rnd width height 100 0 [])
    as [_ Hlen]; [done..|].
  intros Hnil. apply (f_equal length) in Hnil.
  unfold snap_candidates in Hnil. rewrite length_map, Hlen in Hnil. done.
Qed.

(** X15.  On an empty snapshot the search finds a position for every
    width and height of at most 1000 (a width or height of zero or less
    included), whatever the random choices; for a width or a height above
    1000 it finds none, whatever the snapshot. *)
Theorem findEmptySpace_empty_canvas rnd pixels width height :
  (random_source rnd → width ≤ 1000 → height ≤ 1000 →
   ∃ x y, findEmptySpace rnd [] width height = Found x y width height)
  ∧ (1000 < width ∨ 1000 < height →
     findEmptySpace rnd pixels width height = NotFound).
Proof.
  split.
  - intros Hrnd Hw Hh.
    destruct (findEmptySpace rnd [] width height) as [x y w h|] eqn:Hfind.
    + apply findEmptySpace_found in Hfind as Hf. destruct Hf as (-> & -> & _). eauto.
    + exfalso.
      pose proof (proj1 (findEmptySpace_NotFound rnd [] width height) Hfind) as Hb.
      pose proof (sampled_nonempty rnd width height) as Hne.
      destruct (sampled rnd width height) as [|c rest] eqn:Hs; [done|].
      assert (Hc : c ∈ sampled rnd width height) by (rewrite Hs; by left).
      pose proof (sampled_in_bounds rnd width height c Hrnd Hw Hh Hc).
      rewrite Hs in Hc.
      destruct (Hb c Hc) as [?|[?|[?|[?|(px & py & _ & _ & Hin)]]]]; try lia.
      by apply not_elem_of_nil in Hin.
  - intros Hbig.
    destruct (findEmptySpace rnd pixels width height) as [x y w h|] eqn:Hfind;
      [|done].
    apply findEmptySpace_found in Hfind. lia.
Qed.

Lemma findEmptySpace_empty_canvas_witness :
  (∃ x y, findEmptySpace sample_rnd [] 1000 0 = Found x y 1000 0)
  ∧ findEmptySpace sample_rnd [] 1010 10 = NotFound.
Proof.
  split.
  - apply (proj1 (findEmptySpace_empty_canvas sample_rnd [] 1000 0));
      [apply sample_rnd_source|lia..].
  - apply (proj2 (findEmptySpace_empty_canvas sample_rnd [] 1010 10)). lia.
Defined.

(** ** From the search to the placement *)



(** * Properties of the agent *)

(** ** Size templates *)

Lemma adSizes_within_policy sz :
  sz ∈ adSizes → size_within_policy (size_width sz) (size_height sz).
Proof.
  revert sz. apply Forall_forall. unfold adSizes, size_within_policy.
  repeat (constructor;
          [cbn [size_width size_height]; split_and!; (lia || reflexivity)|]).
  constructor.
Qed.

Lemma adSizes_price sz :
  sz ∈ adSizes →
  ∃ amount, price_tag (size_cost sz) = Some amount
            ∧ (amount == inject_Z (size_width sz * size_height sz) * PIXEL_PRICE)%Q.
Proof.
  revert sz. apply Forall_forall. unfold adSizes.
  repeat (constructor; [eexists; split; reflexivity|]). constructor.
Qed.

(** X17.  The size templates agree with the server: a placement with the
    width and height of a template is never rejected for its size, and
    when it is accepted the total cost the server computes is the price
    the template states. *)
Theorem template_price_is_charged sz env body st :
  sz ∈ adSizes →
  ab_width body = JNum (size_width sz) →
  ab_height body = JNum (size_height sz) →
  (failure_of (post_ad env body st).1 ≠ Some TooSmall
   ∧ failure_of (post_ad env body st).1 ≠ Some Misaligned
   ∧ failure_of (post_ad env body st).1 ≠ Some TooLarge)
  ∧ ∀ reply, (post_ad env body st).1 = Ok reply →
      ∃ amount, price_tag (size_cost sz) = Some amount
                ∧ (amount == ad_totalCost (ar_placement reply))%Q.
Proof.
  intros Hsz Hw Hh.
  destruct (adSizes_within_policy sz Hsz) as (Hwr & Hhr & Hwa & Hha).
  split.
  - rewrite post_ad_failure, ad_checks_first_failure.
    unfold ad_stages, big_enough, aligned, small_enough. rewrite Hw, Hh. cbn [num].
    destruct (Z.leb_spec 10 (size_width sz)), (Z.leb_spec 10 (size_height sz));
      try lia.
    destruct (Z.leb_spec (size_width sz) 100), (Z.leb_spec (size_height sz) 100);
      try lia.
    rewrite Hwa, Hha. cbn.
    destruct (numeric_dims body); [|done].
    destruct (inside_grid body); [|done].
    destruct (image_resolves body st); [|done].
    by destruct (texts_present body).
  - intros reply Hreply.
    destruct (adSizes_price sz Hsz) as (amount & Htag & Hamount).
    exists amount. split; [done|].
    destruct (post_ad_cases env body st)
      as [(e&_&He)|(a&reply'&st'&_&Hv&He&_&_&_&_&_&_&Hp)]; rewrite He in *;
      [done|].
    cbn [fst] in Hreply. injection Hreply as <-. rewrite Hp. cbn [ad_totalCost].
    destruct Hv as [_ _ Hw' Hh' _ _ _ _ _ _ _ _].
    assert (aa_width a = size_width sz) as -> by congruence.
    assert (aa_height a = size_height sz) as -> by congruence.
    done.
Qed.

Lemma template_price_is_charged_witness :
  (failure_of (post_ad env_1 (ad_at 0 0 50 20) gallery).1 ≠ Some TooSmall
   ∧ failure_of (post_ad env_1 (ad_at 0 0 50 20) gallery).1 ≠ Some Misaligned
   ∧ failure_of (post_ad env_1 (ad_at 0 0 50 20) gallery).1 ≠ Some TooLarge)
  ∧ ∀ reply, (post_ad env_1 (ad_at 0 0 50 20) gallery).1 = Ok reply →
      ∃ amount,
        price_tag (size_cost
                     {| size_name := "banner"; size_width := 50; size_height := 20;
                        size_description := "Horizontal banner";
                        size_cost := "$0.10";
                        size_useCase :=
                          "Tagline-focused ads. Great for catchy slogans." |})
        = Some amount
        ∧ (amount == ad_totalCost (ar_placement reply))%Q.
Proof.
  apply (template_price_is_charged
           {| size_name := "banner"; size_width := 50; size_height := 20;
              size_description := "Horizontal banner"; size_cost := "$0.10";
              size_useCase := "Tagline-focused ads. Great for catchy slogans." |}
           env_1 (ad_at 0 0 50 20) gallery).
  - unfold adSizes. do 2 right. left.
  - reflexivity.
  - reflexivity.
Defined.

(** ** Lookups by name *)

Lemma find_named_elem {A : Type} (name_of : A → string) wanted table entry :
  find_named name_of wanted table = Some (Some entry) → entry ∈ table.
Proof.
  induction table as [|e rest IH]; cbn; [done|].
  destruct wanted as [| | | |s|]; try done.
  destruct (String.eqb _ _).
  - intros [= ->]. by left.
  - intros H. right. by apply IH.
Qed.

Lemma ad_prompt_nonempty brand style size customPrompt :
  nonempty_string (JStr (ad_prompt brand style size customPrompt)) = true.
Proof. done. Qed.

(** ** The tools, case by case *)

(** What [generateAdImage] can do to the world: nothing, or have the
    server handle one [POST /generate-image] request for a template size,
    and then possibly remember what it generated. *)
Lemma generateAdImage_cases brands adStyles brandName styleName sizeName
    customPrompt trip w :
  placedAdsHistory (generateAdImage brands adStyles brandName styleName sizeName
                      customPrompt trip w).2 = placedAdsHistory w
  ∧ currentRound (generateAdImage brands adStyles brandName styleName sizeName
                    customPrompt trip w).2 = currentRound w
  ∧ ((generateAdImage brands adStyles brandName styleName sizeName
        customPrompt trip w).2 = w
     ∨ ∃ b s z env,
         b ∈ brands ∧ s ∈ adStyles ∧ z ∈ adSizes
         ∧ reaches trip = Some env
         ∧ server (generateAdImage brands adStyles brandName styleName sizeName
                     customPrompt trip w).2
           = handle (PostGenerateImage env
                       {| gb_prompt := JStr (ad_prompt b s z customPrompt);
                          gb_width := JNum (size_width z);
                          gb_height := JNum (size_height z) |}) (server w)
         ∧ (lastGeneratedAd (generateAdImage brands adStyles brandName styleName
                               sizeName customPrompt trip w).2
            = lastGeneratedAd w
            ∨ lastGeneratedAd (generateAdImage brands adStyles brandName styleName
                                 sizeName customPrompt trip w).2
              = Some (b, s, z))).
Proof.
  unfold generateAdImage.
  destruct (find_named brand_name brandName brands) as [[b|]|] eqn:Hb,
    (find_named style_name styleName adStyles) as [[s|]|] eqn:Hs,
    (find_named size_name sizeName adSizes) as [[z|]|] eqn:Hz;
    try (cbn [fst snd]; split_and!; [done|done|by left]).
  apply find_named_elem in Hb, Hs, Hz.
  destruct trip as [| |env|env|env]; cbn [reaches];
    try (cbn [fst snd]; split_and!; [done|done|by left]).
  - destruct (post_generate_image env _ (server w)) as [[data|e] st1] eqn:He;
      cbn [fst snd]; (split_and!; [done..|]); right; exists b, s, z, env;
      cbn [handle]; rewrite He; cbn; split_and!; try done; [by right|by left].
  - split_and!; [done..|]. right. exists b, s, z, env. cbn.
    split_and!; try done. by left.
  - split_and!; [done..|]. right. exists b, s, z, env. cbn.
    split_and!; try done. by left.
Qed.

(** What [placeAd] can do to the world: nothing, or have the server handle
    one [POST /ad] request; it records an ad only when that request was
    accepted and something was generated before. *)
Lemma placeAd_cases address x y width height imageId linkUrl title trip now w :
  currentRound (placeAd address x y width height imageId linkUrl title trip now w).2
  = currentRound w
  ∧ lastGeneratedAd (placeAd address x y width height imageId linkUrl title
                       trip now w).2 = lastGeneratedAd w
  ∧ ((placeAd address x y width height imageId linkUrl title trip now w).2 = w
     ∨ ∃ env,
         reaches trip = Some env
         ∧ server (placeAd address x y width height imageId linkUrl title
                     trip now w).2
           = handle (PostAd env
                       {| ab_x := x; ab_y := y; ab_width := width;
                          ab_height := height; ab_imageId := imageId;
                          ab_linkUrl := linkUrl; ab_title := title;
                          ab_owner := JStr address |}) (server w)
         ∧ (placedAdsHistory (placeAd address x y width height imageId linkUrl
                                title trip now w).2 = placedAdsHistory w
            ∨ ∃ b s z,
                lastGeneratedAd w = Some (b, s, z)
                ∧ accepted (PostAd env
                              {| ab_x := x; ab_y := y; ab_width := width;
                                 ab_height := height; ab_imageId := imageId;
                                 ab_linkUrl := linkUrl; ab_title := title;
                                 ab_owner := JStr address |}) (server w) = true
                ∧ placedAdsHistory (placeAd address x y width height imageId
                                      linkUrl title trip now w).2
                  = placedAdsHistory w
                    ++ [ {| pa_brand := brand_name b; pa_style := style_name s;
                            pa_size := size_name z;
                            pa_round := currentRound w;
                            pa_timestamp := now |} ])).
Proof.
  unfold placeAd.
  destruct trip as [| |env|env|env]; cbn [reaches];
    try (cbn [fst snd]; split_and!; [done|done|by left]).
  - cbn [accepted handle].
    destruct (post_ad env _ (server w)) as [[data|e] st1] eqn:He; cbn [fst snd is_ok].
    + destruct (lastGeneratedAd w) as [[[b s] z]|] eqn:Hlast; cbn; rewrite ?Hlast.
      * split; [done|]. split; [by cbn; rewrite ?Hlast|]. right. exists env.
        split; [done|]. split; [by rewrite He|]. right. exists b, s, z.
        by rewrite He.
      * split; [done|]. split; [by cbn; rewrite ?Hlast|]. right. exists env.
        split; [done|]. split; [by rewrite He|]. by left.
    + split; [done|]. split; [done|]. right. exists env.
      split; [done|]. split; [by rewrite He|]. by left.
  - split; [done|]. split; [done|]. right. exists env. cbn.
    split; [done|]. split; [done|]. by left.
  - split; [done|]. split; [done|]. right. exists env. cbn.
    split; [done|]. split; [done|]. by left.
Qed.

(** ** The agent acts on the server through requests only *)

Lemma act_server brands adStyles address a w :
  ∃ rs, server (act brands adStyles address a w) = run rs (server w).
Proof.
  destruct a as [bn sn zn cp trip|x y wd ht img link title trip now| |r];
    cbn [act].
  - destruct (generateAdImage_cases brands adStyles bn sn zn cp trip w)
      as (_ & _ & [->|(b & s & z & env & _ & _ & _ & _ & -> & _)]).
    + by exists [].
    + by eexists [_].
  - destruct (placeAd_cases address x y wd ht img link title trip now w)
      as (_ & _ & [->|(env & _ & -> & _)]).
    + by exists [].
    + by eexists [_].
  - by exists [].
  - by exists [r].
Qed.

Lemma run_agent_cons brands adStyles address a actions w :
  run_agent brands adStyles address (a :: actions) w
  = run_agent brands adStyles address actions (act brands adStyles address a w).
Proof. done. Qed.

Lemma run_app rs1 rs2 st : run (rs1 ++ rs2) st = run rs2 (run rs1 st).
Proof. unfold run. by rewrite foldl_app. Qed.

Lemma run_agent_server brands adStyles address actions w :
  ∃ rs, server (run_agent brands adStyles address actions w) = run rs (server w).
Proof.
  revert w. induction actions as [|a actions IH]; intros w.
  - by exists [].
  - rewrite run_agent_cons.
    destruct (IH (act brands adStyles address a w)) as [rs2 ->].
    destruct (act_server brands adStyles address a w) as [rs1 ->].
    exists (rs1 ++ rs2). by rewrite run_app.
Qed.

(** ** What the agent remembers *)

Lemma act_inv brands adStyles address a w :
  agent_inv brands adStyles w → agent_inv brands adStyles (act brands adStyles address a w).
Proof.
  intros [Hlen Hlast Hhist Hchron].
  destruct a as [bn sn zn cp trip|x y wd ht img link title trip now| |r];
    cbn [act].
  - destruct (generateAdImage_cases brands adStyles bn sn zn cp trip w)
      as (Hh & Hr & [->|(b & s & z & env & Hb & Hs & Hz & _ & Hsrv & Hl)]);
      [by split|].
    split.
    + rewrite Hh, Hsrv. etrans; [done|].
      apply prefix_length, handle_ledger.
    + intros b' s' z' Hl'. destruct Hl as [Hl|Hl]; rewrite Hl in Hl'.
      * by apply Hlast.
      * by simplify_eq.
    + by rewrite Hh, Hr.
    + by rewrite Hh.
  - destruct (placeAd_cases address x y wd ht img link title trip now w)
      as (Hr & Hl & [->|(env & _ & Hsrv & [Hh|(b & s & z & Hw & Hacc & Hh)])]);
      [by split| |].
    + split.
      * rewrite Hh, Hsrv. etrans; [done|]. apply prefix_length, handle_ledger.
      * by rewrite Hl.
      * by rewrite Hh, Hr.
      * by rewrite Hh.
    + destruct (Hlast b s z Hw) as (Hb & Hs & Hz). split.
      * rewrite Hh, Hsrv, length_app. cbn [length].
        destruct (handle_ledger_cases
                    (PostAd env {| ab_x := x; ab_y := y; ab_width := wd;
                                   ab_height := ht; ab_imageId := img;
                                   ab_linkUrl := link; ab_title := title;
                                   ab_owner := JStr address |}) (server w))
          as [Hsame|(?&?&?&?&_&_&_&Hgrow&_)].
        -- exfalso. pose proof (run_ledger_length [PostAd env
                                   {| ab_x := x; ab_y := y; ab_width := wd;
                                      ab_height := ht; ab_imageId := img;
                                      ab_linkUrl := link; ab_title := title;
                                      ab_owner := JStr address |}] (server w)) as Hn.
           cbn [run foldl accepted_placements] in Hn. rewrite Hacc, Hsame in Hn. lia.
        -- rewrite Hgrow, length_app. cbn [length]. lia.
      * by rewrite Hl.
      * rewrite Hh, Hr. apply Forall_app. split; [done|].
        constructor; [|done]. cbn. split; [|lia].
        split_and!; eauto.
      * rewrite Hh. intros i j a1 a2 Hij Hi Hj.
        destruct (decide (j < length (placedAdsHistory w))%nat) as [Hjl|Hjl].
        -- rewrite lookup_app_l in Hi, Hj by lia.
           exact (Hchron i j a1 a2 Hij Hi Hj).
        -- rewrite lookup_app_r in Hj by lia.
           destruct (j - length (placedAdsHistory w))%nat as [|n] eqn:Hn;
             [|by rewrite lookup_cons_ne_0, lookup_nil in Hj].
           injection Hj as <-. cbn [pa_round].
           destruct (decide (i < length (placedAdsHistory w))%nat) as [Hil|Hil].
           ++ rewrite lookup_app_l in Hi by lia.
              rewrite Forall_forall in Hhist.
              apply list_elem_of_lookup_2 in Hi. by destruct (Hhist a1 Hi).
           ++ rewrite lookup_app_r in Hi by lia.
              replace (i - length (placedAdsHistory w))%nat with 0%nat in Hi by lia.
              injection Hi as <-. cbn. lia.
  - split; cbn; try done.
    eapply Forall_impl; [done|]. intros a [? ?]. split; [done|lia].
  - split; cbn; try done.
    etrans; [done|]. apply prefix_length, handle_ledger.
Qed.

Lemma run_agent_inv brands adStyles address actions w :
  agent_inv brands adStyles w →
  agent_inv brands adStyles (run_agent brands adStyles address actions w).
Proof.
  revert w. induction actions as [|a actions IH]; intros w Hw; [done|].
  rewrite run_agent_cons. by apply IH, act_inv.
Qed.

Lemma initial_world_inv brands adStyles : agent_inv brands adStyles initial_world.
Proof. split; cbn; done. Qed.


(** ** The agent's tools: statements *)

(** X18.  [generateAdImage] never has its request rejected by the
    validation of [POST /generate-image]: when the handler's reply comes
    back, it is the generated image or the failure of the image model.  An
    image it offers has the size of a template, within the size policy of
    [POST /ad], is served by [GET /images/:id], and is remembered as the
    ad generated last.  The canvas, the ledger and the history of placed
    ads are left as they were. *)
Theorem generateAdImage_outcome brands adStyles brandName styleName sizeName
    customPrompt trip w :
  match (generateAdImage brands adStyles brandName styleName sizeName
           customPrompt trip w).1 with
  | ToolError (ServerSaid e) => e = GenerationFailed
  | ImageReady offer =>
    size_within_policy (io_width offer) (io_height offer)
    ∧ is_ok (get_image (io_imageId offer)
               (server (generateAdImage brands adStyles brandName styleName
                          sizeName customPrompt trip w).2)) = true
    ∧ ∃ b s z,
        b ∈ brands ∧ s ∈ adStyles ∧ z ∈ adSizes
        ∧ lastGeneratedAd (generateAdImage brands adStyles brandName styleName
                             sizeName customPrompt trip w).2 = Some (b, s, z)
        ∧ io_width offer = size_width z ∧ io_height offer = size_height z
        ∧ io_cost offer = size_cost z ∧ io_linkUrl offer = brand_linkUrl b
  | AdPlaced _ | SpaceFound _ _ _ _ | NoSpace => False
  | _ => True
  end
  ∧ canvas (server (generateAdImage brands adStyles brandName styleName sizeName
                      customPrompt trip w).2) = canvas (server w)
  ∧ adPlacements (server (generateAdImage brands adStyles brandName styleName
                            sizeName customPrompt trip w).2)
    = adPlacements (server w)
  ∧ placedAdsHistory (generateAdImage brands adStyles brandName styleName
                        sizeName customPrompt trip w).2 = placedAdsHistory w.
Proof.
  unfold generateAdImage.
  destruct (find_named brand_name brandName brands) as [[b|]|] eqn:Hb,
    (find_named style_name styleName adStyles) as [[s|]|] eqn:Hs,
    (find_named size_name sizeName adSizes) as [[z|]|] eqn:Hz;
    try (cbn [fst snd]; done).
  apply find_named_elem in Hb, Hs, Hz.
  destruct (adSizes_within_policy z Hz) as (Hwr & Hhr & Hwa & Hha).
  assert (Hhandled : ∀ env,
    (∃ bytes, gen_image env = Some bytes
       ∧ post_generate_image env
           {| gb_prompt := JStr (ad_prompt b s z customPrompt);
              gb_width := JNum (size_width z);
              gb_height := JNum (size_height z) |} (server w)
         = (Ok {| gr_imageId := gen_imageId env;
                  gr_imageUrl := image_url (gen_port env) (gen_imageId env);
                  gr_width := size_width z; gr_height := size_height z |},
            {| canvas := canvas (server w);
               adPlacements := adPlacements (server w);
               generatedImages :=
                 <[gen_imageId env := {| data := bytes;
                                         contentType := "image/png" |}]>
                   (generatedImages (server w));
               totalRevenue := totalRevenue (server w);
               totalPixelsSold := totalPixelsSold (server w) |}))
    ∨ post_generate_image env
        {| gb_prompt := JStr (ad_prompt b s z customPrompt);
           gb_width := JNum (size_width z);
           gb_height := JNum (size_height z) |} (server w)
      = (Err GenerationFailed, server w)).
  { intros env. unfold post_generate_image.
    rewrite gen_checks_accepts by (lia || done).
    destruct (gen_image env) as [bytes|]; [left; by exists bytes|by right]. }
  destruct trip as [| |env|env|env]; cbn [fst snd]; try done.
  - destruct (Hhandled env) as [(bytes & _ & ->)| ->]; cbn [fst snd]; [|done].
    split_and!; try done.
    + cbn. unfold get_image. cbn. by rewrite lookup_insert_eq.
    + exists b, s, z. done.
  - destruct (Hhandled env) as [(bytes & _ & ->)| ->]; done.
  - destruct (Hhandled env) as [(bytes & _ & ->)| ->]; done.
Qed.

(** X19.  What the agent remembers is sound.  After any sequence of tool
    calls, new rounds and requests of other clients, starting from a fresh
    agent and an empty store: the history holds no more ads than the ledger
    of the server; every ad in it names a brand, a style and a size of the
    tables and a round that has begun; the history is in the order of the
    rounds; and the server is in a state that a sequence of requests leads
    to. *)
Theorem agent_memory_sound brands adStyles address actions :
  (length (placedAdsHistory
             (run_agent brands adStyles address actions initial_world))
   ≤ length (adPlacements
               (server (run_agent brands adStyles address actions initial_world))))%nat
  ∧ Forall (fun a =>
              from_tables brands adStyles (pa_brand a) (pa_style a) (pa_size a)
              ∧ pa_round a
                ≤ currentRound
                    (run_agent brands adStyles address actions initial_world))
           (placedAdsHistory
              (run_agent brands adStyles address actions initial_world))
  ∧ (∀ i j a b,
       (i ≤ j)%nat →
       placedAdsHistory (run_agent brands adStyles address actions initial_world)
         !! i = Some a →
       placedAdsHistory (run_agent brands adStyles address actions initial_world)
         !! j = Some b →
       pa_round a ≤ pa_round b)
  ∧ ∃ rs, server (run_agent brands adStyles address actions initial_world)
          = run rs empty_store.
Proof.
  destruct (run_agent_inv brands adStyles address actions initial_world
              (initial_world_inv brands adStyles)) as [Hlen _ Hhist Hchron].
  split_and!; try done.
  apply (run_agent_server brands adStyles address actions initial_world).
Qed.

(** ** The context of recent ads *)

Lemma recent_ads_nil history : recent_ads history = [] ↔ history = [].
Proof.
  unfold recent_ads. split; [|by intros ->].
  intros Hdrop. apply (f_equal length) in Hdrop.
  rewrite length_drop in Hdrop. cbn in Hdrop.
  destruct history; [done|]. cbn in Hdrop. lia.
Qed.

Lemma recent_ads_app older recent :
  length recent = 10%nat → recent_ads (older ++ recent) = recent.
Proof.
  intros Hlen. unfold recent_ads. rewrite length_app, Hlen.
  replace (length older + 10 - 10)%nat with (length older) by lia.
  by rewrite drop_app_length.
Qed.

(** X20.  The context of recent ads covers the last ten ads and nothing
    else: it is the message that no ad was placed exactly when the history
    is empty; it lists at most ten ads; the ads before the last ten have no
    influence on it; and an ad just recorded is the last one it lists. *)
Theorem recent_context_window w older recent a :
  (getRecentAdsContext w = "No ads placed yet in this session."%string
   ↔ placedAdsHistory w = [])
  ∧ (length (recent_ads (placedAdsHistory w)) ≤ 10)%nat
  ∧ (length recent = 10%nat → placedAdsHistory w = older ++ recent →
     getRecentAdsContext w
     = getRecentAdsContext
         {| server := server w; lastGeneratedAd := lastGeneratedAd w;
            placedAdsHistory := recent; currentRound := currentRound w |})
  ∧ last (recent_ads (placedAdsHistory w ++ [a])) = Some a.
Proof.
  split_and!.
  - unfold getRecentAdsContext.
    destruct (recent_ads (placedAdsHistory w)) as [|r rest] eqn:Hrecent.
    + apply (proj1 (recent_ads_nil _)) in Hrecent. cbn [length Nat.eqb]. by split.
    + cbn [length Nat.eqb]. split; [done|].
      intros Hnil. apply (proj2 (recent_ads_nil _)) in Hnil. congruence.
  - unfold recent_ads. rewrite length_drop. lia.
  - intros Hlen Hw. unfold getRecentAdsContext. cbn [placedAdsHistory].
    assert (Hsame : recent_ads recent = recent).
    { unfold recent_ads. by rewrite Hlen. }
    by rewrite Hw, recent_ads_app, Hsame.
  - unfold recent_ads. rewrite length_app. cbn [length].
    rewrite drop_app_le by lia. apply last_snoc.
Qed.

Lemma recent_context_window_witness :
  getRecentAdsContext
    {| server := empty_store; lastGeneratedAd := None;
       placedAdsHistory :=
         [mkPlacedAd "BrewBox" "retro" "micro" 1 0]
         ++ replicate 10 (mkPlacedAd "PetPal" "bold" "small" 2 0);
       currentRound := 2 |}
  = getRecentAdsContext
      {| server := empty_store; lastGeneratedAd := None;
         placedAdsHistory := replicate 10 (mkPlacedAd "PetPal" "bold" "small" 2 0);
         currentRound := 2 |}.
Proof.
  apply (proj1 (proj2 (proj2 (recent_context_window
           {| server := empty_store; lastGeneratedAd := None;
              placedAdsHistory :=
                [mkPlacedAd "BrewBox" "retro" "micro" 1 0]
                ++ replicate 10 (mkPlacedAd "PetPal" "bold" "small" 2 0);
              currentRound := 2 |}
           [mkPlacedAd "BrewBox" "retro" "micro" 1 0]
           (replicate 10 (mkPlacedAd "PetPal" "bold" "small" 2 0))
           (mkPlacedAd "PetPal" "bold" "small" 2 0)))));
    reflexivity.
Defined.

(** ** The keys of the canvas *)

Lemma split_on_whole sep s : mentions sep s = false → split_on sep s = [s].
Proof.
  induction s as [|c rest IH]; [done|]. cbn [mentions split_on].
  intros [Hc Hrest]%orb_false_iff. rewrite Hc, (IH Hrest). done.
Qed.

Lemma split_on_app sep a b :
  mentions sep a = false →
  split_on sep (a ++ String sep b) = a :: split_on sep b.
Proof.
  induction a as [|c rest IH]; cbn [mentions].
  - intros _. change ("" +:+ String sep b) with (String sep b).
    cbn [split_on]. by rewrite Ascii.eqb_refl.
  - intros [Hc Hrest]%orb_false_iff.
    change (String c rest +:+ String sep b)
      with (String c (rest +:+ String sep b)).
    cbn [split_on]. rewrite Hc, (IH Hrest). done.
Qed.

Lemma mentions_uint d :
  mentions "," (DecimalString.NilEmpty.string_of_uint d) = false.
Proof. induction d; cbn; done. Qed.

Lemma mentions_string_of_Z n : mentions "," (string_of_Z n) = false.
Proof.
  unfold string_of_Z.
  destruct (Z.to_int n) as [d|d]; cbn [DecimalString.NilZero.string_of_int].
  - destruct d; try apply (mentions_uint (_ _)); done.
  - cbn [mentions]. destruct d; try apply (mentions_uint (_ _)); done.
Qed.

Lemma Number_string_of_Z n : Number_of_string (string_of_Z n) = Some n.
Proof.
  unfold Number_of_string, string_of_Z.
  rewrite DecimalString.NilZero.isi.
  - cbn. by rewrite DecimalZ.of_to.
  - destruct n; cbn; try done.
    intros [= H]. by apply DecimalPos.Unsigned.to_uint_nonnil in H.
  - destruct n; cbn; try done.
    intros [= H]. by apply DecimalPos.Unsigned.to_uint_nonnil in H.
Qed.

(** X21.  The string key of a cell determines the cell.  For coordinates of
    the grid, splitting the key [`${x},${y}`] at the comma and reading the
    two pieces as numbers, as [GET /canvas] does, gives back [x] and [y];
    so the keys of two different cells differ, and no write to one cell
    lands on another. *)
Theorem canvas_key_round_trip x y x' y' :
  in_grid (x, y) → in_grid (x', y') →
  key_coords (canvas_key x y) = [Some x; Some y]
  ∧ (canvas_key x y = canvas_key x' y' → (x, y) = (x', y')).
Proof.
  intros _ _.
  assert (Hdecode : ∀ a b, key_coords (canvas_key a b) = [Some a; Some b]).
  { intros a b. unfold key_coords, canvas_key.
    change ("," ++ string_of_Z b)%string with (String "," (string_of_Z b)).
    rewrite split_on_app by apply mentions_string_of_Z.
    rewrite split_on_whole by apply mentions_string_of_Z.
    cbn [fmap list_fmap]. by rewrite !Number_string_of_Z. }
  split; [apply Hdecode|].
  intros Hkey. apply (f_equal key_coords) in Hkey.
  rewrite !Hdecode in Hkey. congruence.
Qed.

Lemma canvas_key_round_trip_witness :
  key_coords (canvas_key 12 345) = [Some 12; Some 345]
  ∧ (canvas_key 12 345 = canvas_key 12 345 → (12, 345) = (12, 345)).
Proof.
  apply (canvas_key_round_trip 12 345 12 345);
    unfold in_grid, CANVAS_WIDTH, CANVAS_HEIGHT; cbn; lia.
Defined.
